(** * A shallow embedding of [chess_game.py]: the board engine

    The development embeds the two core classes of the program,
    [ChessPiece] and [ChessBoard], and proves the properties of move
    validation and move application stated for them.

    Python objects are mutable and shared by reference: the move log
    keeps the very piece objects that sit in the grid.  Piece objects
    therefore live in a store addressed by identity, and the grid and
    the move log hold references into it.  Methods are computations in
    a state-and-exception monad over that store and the board's
    attributes. *)

From stdpp Require Import base numbers list strings pretty.
From Stdlib Require Import ZArith Lia Bool.

Open Scope Z_scope.

(** ** Enumerations *)

Inductive Color := WHITE | BLACK.

Inductive PieceType := PAWN | ROOK | KNIGHT | BISHOP | QUEEN | KING.

#[global] Instance Color_eq_dec : EqDecision Color.
Proof. solve_decision. Defined.

#[global] Instance PieceType_eq_dec : EqDecision PieceType.
Proof. solve_decision. Defined.

(** ** Exceptions and outcomes *)

(** [IndexError] and [KeyError] are raised by list and dict
    subscription, [NotImplementedError] by [get_possible_moves].
    [DanglingRef] is not a Python exception: it is the result of
    dereferencing a reference that denotes no object, which no Python
    execution can do; it is shown unreachable from well-formed
    states. *)
Inductive exn := IndexError | KeyError | NotImplementedError | DanglingRef.

Inductive outcome (A : Type) :=
| Return (a : A)
| Raise (e : exn).
Arguments Return {A} a.
Arguments Raise {A} e.

Definition obind {A B} (m : outcome A) (k : A -> outcome B) : outcome B :=
  match m with
  | Return a => k a
  | Raise e => Raise e
  end.

Declare Scope outcome_scope.
Delimit Scope outcome_scope with outcome.
Notation "x <- m ;; k" := (obind m (fun x => k))
  (at level 100, m at next level, k at level 200, right associativity)
  : outcome_scope.

(** ** Python sequences and dict literals *)

(** List subscription: a negative index counts from the end, and an
    index that is still outside the list after that raises
    [IndexError]. *)
Definition norm_index (len : nat) (i : Z) : outcome nat :=
  let i' := if i <? 0 then i + Z.of_nat len else i in
  if (i' <? 0) || (i' >=? Z.of_nat len) then Raise IndexError
  else Return (Z.to_nat i').

Definition list_getitem {A} (l : list A) (i : Z) : outcome A :=
  (n <- norm_index (length l) i ;;
   match l !! n with
   | Some x => Return x
   | None => Raise IndexError
   end)%outcome.

Definition list_setitem {A} (l : list A) (i : Z) (x : A) : outcome (list A) :=
  (n <- norm_index (length l) i ;;
   Return (<[n := x]> l))%outcome.

(** A dict literal is an association list; subscription with a missing
    key raises [KeyError]. *)
Fixpoint dict_getitem {K V} `{EqDecision K} (d : list (K * V)) (k : K)
  : outcome V :=
  match d with
  | [] => Raise KeyError
  | (k', v) :: d' => if decide (k' = k) then Return v else dict_getitem d' k
  end.

(** [range(n)] *)
Definition range (n : Z) : list Z := seqZ 0 n.

(** ** Pieces *)

Record ChessPiece := mkPiece {
  type : PieceType;
  color : Color;
  row : Z;
  col : Z;
  has_moved : bool;
  symbol : string
}.

Definition symbols : list (Color * list (PieceType * string)) :=
  [ (WHITE, [ (PAWN, "♙"); (ROOK, "♖"); (KNIGHT, "♘");
              (BISHOP, "♗"); (QUEEN, "♕"); (KING, "♔") ]);
    (BLACK, [ (PAWN, "♟"); (ROOK, "♜"); (KNIGHT, "♞");
              (BISHOP, "♝"); (QUEEN, "♛"); (KING, "♚") ]) ].

(** [_get_symbol] reads [self.color] and [self.type] only. *)
Definition _get_symbol (self_color : Color) (self_type : PieceType)
  : outcome string :=
  (by_type <- dict_getitem symbols self_color ;;
   dict_getitem by_type self_type)%outcome.

(** The attributes [ChessPiece.__init__] gives a new object. *)
Definition ChessPiece_init (piece_type : PieceType) (color : Color)
    (row col : Z) : outcome ChessPiece :=
  (symbol <- _get_symbol color piece_type ;;
   Return (mkPiece piece_type color row col false symbol))%outcome.

Definition set_row (v : Z) (p : ChessPiece) : ChessPiece :=
  mkPiece (type p) (color p) v (col p) (has_moved p) (symbol p).
Definition set_col (v : Z) (p : ChessPiece) : ChessPiece :=
  mkPiece (type p) (color p) (row p) v (has_moved p) (symbol p).
Definition set_has_moved (v : bool) (p : ChessPiece) : ChessPiece :=
  mkPiece (type p) (color p) (row p) (col p) v (symbol p).

(** ** The board and the store *)

(** A reference to a piece object: its position in the store. *)
Definition ref := nat.

(** The dict built by [move_piece] for the move log. *)
Record MoveRecord := mkMove {
  mv_piece : ref;
  mv_from : Z * Z;
  mv_to : Z * Z;
  mv_captured : option ref
}.

(** The attributes of a [ChessBoard], together with the store [pieces]
    of the piece objects its references point to.  The rows of [board]
    are created separately by the nested comprehension of [__init__]
    and are never shared, so the grid is a list of lists by value. *)
Record ChessBoard := mkBoard {
  pieces : list ChessPiece;
  size : Z;
  board : list (list (option ref));
  current_turn : Color;
  move_history : list MoveRecord
}.

Definition with_pieces (v : list ChessPiece) (s : ChessBoard) : ChessBoard :=
  mkBoard v (size s) (board s) (current_turn s) (move_history s).
Definition with_board (v : list (list (option ref))) (s : ChessBoard)
  : ChessBoard :=
  mkBoard (pieces s) (size s) v (current_turn s) (move_history s).
Definition with_current_turn (v : Color) (s : ChessBoard) : ChessBoard :=
  mkBoard (pieces s) (size s) (board s) v (move_history s).
Definition with_move_history (v : list MoveRecord) (s : ChessBoard)
  : ChessBoard :=
  mkBoard (pieces s) (size s) (board s) (current_turn s) v.

(** ** Methods as stateful computations

    A computation ends with a value or an exception, and in both cases
    with the state it has reached: what was mutated before an exception
    stays mutated. *)
Definition M (A : Type) : Type := ChessBoard -> outcome A * ChessBoard.

Definition ret {A} (a : A) : M A := fun s => (Return a, s).

Definition bind {A B} (m : M A) (k : A -> M B) : M B :=
  fun s =>
    match m s with
    | (Return a, s') => k a s'
    | (Raise e, s') => (Raise e, s')
    end.

Definition lift {A} (o : outcome A) : M A := fun s => (o, s).

Definition gets {A} (f : ChessBoard -> A) : M A := fun s => (Return (f s), s).

Definition modify (f : ChessBoard -> ChessBoard) : M unit :=
  fun s => (Return tt, f s).

Declare Scope M_scope.
Delimit Scope M_scope with M.
Notation "x <- m ;; k" := (bind m (fun x => k))
  (at level 100, m at next level, k at level 200, right associativity)
  : M_scope.
Notation "m ;; k" := (bind m (fun _ => k))
  (at level 100, k at level 200, right associativity) : M_scope.

(** [for x in xs: body x] *)
Fixpoint for_each {A} (xs : list A) (body : A -> M unit) : M unit :=
  match xs with
  | [] => ret tt
  | x :: xs' => (body x ;; for_each xs' body)%M
  end.

(** [ChessPiece(piece_type, color, row, col)]: a new object in the
    store, and the reference to it. *)
Definition ChessPiece_new (piece_type : PieceType) (color : Color)
    (row col : Z) : M ref :=
  (p <- lift (ChessPiece_init piece_type color row col) ;;
   r <- gets (fun s => length (pieces s)) ;;
   modify (fun s => with_pieces (pieces s ++ [p]) s) ;;
   ret r)%M.

(** [piece.attr] and [piece.attr = v] *)
Definition getattr {A} (piece : ref) (attr : ChessPiece -> A) : M A :=
  fun s =>
    match pieces s !! piece with
    | Some p => (Return (attr p), s)
    | None => (Raise DanglingRef, s)
    end.

Definition setattr (piece : ref) (upd : ChessPiece -> ChessPiece) : M unit :=
  fun s =>
    match pieces s !! piece with
    | Some p => (Return tt, with_pieces (<[piece := upd p]> (pieces s)) s)
    | None => (Raise DanglingRef, s)
    end.

(** [b[r][c]] on a list of lists *)
Definition grid_getitem {A} (b : list (list A)) (r c : Z) : outcome A :=
  (row <- list_getitem b r ;; list_getitem row c)%outcome.

(** [b[r][c] = v]: the row object [b[r]] is fetched and then updated in
    place, so what changes in [b] is the row at the position the index
    [r] denotes. *)
Definition grid_setitem {A} (b : list (list A)) (r c : Z) (v : A)
  : outcome (list (list A)) :=
  (row <- list_getitem b r ;;
   row' <- list_setitem row c v ;;
   list_setitem b r row')%outcome.

(** [self.board[r][c]] *)
Definition board_getitem (r c : Z) : M (option ref) :=
  (b <- gets board ;; lift (grid_getitem b r c))%M.

(** [self.board[r][c] = v] *)
Definition board_setitem (r c : Z) (v : option ref) : M unit :=
  (b <- gets board ;;
   b' <- lift (grid_setitem b r c v) ;;
   modify (with_board b'))%M.

(** ** [ChessBoard] *)

Definition _setup_board : M unit :=
  (p <- ChessPiece_new ROOK WHITE 7 0 ;; board_setitem 7 0 (Some p) ;;
   p <- ChessPiece_new KNIGHT WHITE 7 1 ;; board_setitem 7 1 (Some p) ;;
   p <- ChessPiece_new BISHOP WHITE 7 2 ;; board_setitem 7 2 (Some p) ;;
   p <- ChessPiece_new QUEEN WHITE 7 3 ;; board_setitem 7 3 (Some p) ;;
   p <- ChessPiece_new KING WHITE 7 4 ;; board_setitem 7 4 (Some p) ;;
   p <- ChessPiece_new BISHOP WHITE 7 5 ;; board_setitem 7 5 (Some p) ;;
   p <- ChessPiece_new KNIGHT WHITE 7 6 ;; board_setitem 7 6 (Some p) ;;
   p <- ChessPiece_new ROOK WHITE 7 7 ;; board_setitem 7 7 (Some p) ;;

   n <- gets size ;;
   for_each (range n) (fun col =>
     p <- ChessPiece_new PAWN WHITE 6 col ;; board_setitem 6 col (Some p)) ;;

   p <- ChessPiece_new ROOK BLACK 0 0 ;; board_setitem 0 0 (Some p) ;;
   p <- ChessPiece_new KNIGHT BLACK 0 1 ;; board_setitem 0 1 (Some p) ;;
   p <- ChessPiece_new BISHOP BLACK 0 2 ;; board_setitem 0 2 (Some p) ;;
   p <- ChessPiece_new QUEEN BLACK 0 3 ;; board_setitem 0 3 (Some p) ;;
   p <- ChessPiece_new KING BLACK 0 4 ;; board_setitem 0 4 (Some p) ;;
   p <- ChessPiece_new BISHOP BLACK 0 5 ;; board_setitem 0 5 (Some p) ;;
   p <- ChessPiece_new KNIGHT BLACK 0 6 ;; board_setitem 0 6 (Some p) ;;
   p <- ChessPiece_new ROOK BLACK 0 7 ;; board_setitem 0 7 (Some p) ;;

   n <- gets size ;;
   for_each (range n) (fun col =>
     p <- ChessPiece_new PAWN BLACK 1 col ;; board_setitem 1 col (Some p)))%M.

(** [ChessBoard.__init__]: the attributes are set in the order of the
    source; [current_turn] and [move_history] do not exist while
    [_setup_board] runs, which does not read them.  [store] holds the
    objects that exist before the call. *)
Definition ChessBoard_init (size : Z) (store : list ChessPiece)
  : outcome ChessBoard :=
  let n := Z.to_nat size in
  let self := mkBoard store size (replicate n (replicate n None)) WHITE [] in
  match _setup_board self with
  | (Return _, self) =>
      Return (with_move_history [] (with_current_turn WHITE self))
  | (Raise e, _) => Raise e
  end.

Definition is_valid_move (piece : ref) (new_row new_col : Z) : M bool :=
  (n <- gets size ;;
   if (new_row <? 0) || (new_row >=? n) ||
      (new_col <? 0) || (new_col >=? n)
   then ret false
   else
     dest_piece <- board_getitem new_row new_col ;;
     match dest_piece with
     | None => ret true
     | Some dest_piece =>
         dest_color <- getattr dest_piece color ;;
         piece_color <- getattr piece color ;;
         if bool_decide (dest_color = piece_color) then ret false
         else ret true
     end)%M.

Definition move_piece (from_row from_col to_row to_col : Z) : M bool :=
  (piece <- board_getitem from_row from_col ;;
   match piece with
   | None => ret false
   | Some piece =>
       piece_color <- getattr piece color ;;
       turn <- gets current_turn ;;
       if bool_decide (piece_color <> turn) then ret false
       else
         valid <- is_valid_move piece to_row to_col ;;
         if negb valid then ret false
         else
           capture <- board_getitem to_row to_col ;;
           let move_record :=
             mkMove piece (from_row, from_col) (to_row, to_col) capture in
           modify (fun s =>
             with_move_history (move_history s ++ [move_record]) s) ;;
           board_setitem to_row to_col (Some piece) ;;
           board_setitem from_row from_col None ;;
           setattr piece (set_row to_row) ;;
           setattr piece (set_col to_col) ;;
           setattr piece (set_has_moved true) ;;
           turn <- gets current_turn ;;
           modify (with_current_turn
                     (if bool_decide (turn = WHITE) then BLACK else WHITE)) ;;
           ret true
   end)%M.

(** [ChessPiece.get_possible_moves] *)
Definition get_possible_moves (piece : ref) : M (list (Z * Z)) :=
  lift (Raise NotImplementedError).

(** The board of a freshly started program: [ChessBoard()] with the
    default [size=8] and no piece object allocated before. *)
Definition fresh : ChessBoard :=
  Eval vm_compute in
  match ChessBoard_init 8 [] with
  | Return b => b
  | Raise _ => mkBoard [] 8 [] WHITE []
  end.

(** ** [ChessApp]: the window on the board

    tkinter and the builtins [str] and [chr] are not part of the
    program.  The program is modelled over any implementation of what
    it uses of them: of a canvas, the three methods [create_rectangle],
    [create_text] and [delete], each acting on the state of the canvas,
    the first two returning the new item; of a label, its text. *)
Class Canvas (C Item : Type) := {
  canvas_create_rectangle :
    Z -> Z -> Z -> Z -> string -> string -> C -> Item * C;
  canvas_create_text :
    Z -> Z -> string -> string * Z -> option string -> C -> Item * C;
  canvas_delete : Item -> C -> C
}.

Class Builtins := {
  str : Z -> string;
  chr : Z -> string
}.

(** A mouse event: [event.x] and [event.y], in pixels. *)
Record Event := mkEvent {
  ev_x : Z;
  ev_y : Z
}.

(** [self.BOARD_SIZE] and [self.SQUARE_SIZE] are set once, to these
    literals. *)
Definition BOARD_SIZE : Z := 8.
Definition SQUARE_SIZE : Z := 80.

(** [d[k] = v] on a dict, which keeps its keys in insertion order. *)
Fixpoint dict_setitem {K V} `{EqDecision K} (d : list (K * V)) (k : K) (v : V)
  : list (K * V) :=
  match d with
  | [] => [(k, v)]
  | (k', v') :: d' =>
      if decide (k' = k) then (k', v) :: d'
      else (k', v') :: dict_setitem d' k v
  end.

(** [d.values()] *)
Definition dict_values {K V} (d : list (K * V)) : list V := d.*2.

Section App.
Context {C Item : Type} `{!Canvas C Item} `{!Builtins}.

(** The attributes of a [ChessApp] that the methods below use.  The
    board comes with the store of its piece objects; [status_label] is
    the text of the label widget. *)
Record ChessApp := mkApp {
  canvas : C;
  chess_board : ChessBoard;
  drawn_pieces : list ((Z * Z) * Item);
  selected_piece : option ref;
  status_label : string
}.

Definition with_canvas (v : C) (a : ChessApp) : ChessApp :=
  mkApp v (chess_board a) (drawn_pieces a) (selected_piece a) (status_label a).
Definition with_chess_board (v : ChessBoard) (a : ChessApp) : ChessApp :=
  mkApp (canvas a) v (drawn_pieces a) (selected_piece a) (status_label a).
Definition with_drawn_pieces (v : list ((Z * Z) * Item)) (a : ChessApp)
  : ChessApp :=
  mkApp (canvas a) (chess_board a) v (selected_piece a) (status_label a).
Definition with_selected_piece (v : option ref) (a : ChessApp) : ChessApp :=
  mkApp (canvas a) (chess_board a) (drawn_pieces a) v (status_label a).
Definition with_status_label (v : string) (a : ChessApp) : ChessApp :=
  mkApp (canvas a) (chess_board a) (drawn_pieces a) (selected_piece a) v.

(** Computations on the window, as on the board. *)
Definition AppM (A : Type) : Type := ChessApp -> outcome A * ChessApp.

Definition app_ret {A} (a : A) : AppM A := fun s => (Return a, s).

Definition app_bind {A B} (m : AppM A) (k : A -> AppM B) : AppM B :=
  fun s =>
    match m s with
    | (Return a, s') => k a s'
    | (Raise e, s') => (Raise e, s')
    end.

Definition app_gets {A} (f : ChessApp -> A) : AppM A :=
  fun s => (Return (f s), s).

Definition app_modify (f : ChessApp -> ChessApp) : AppM unit :=
  fun s => (Return tt, f s).

(** A method of [self.chess_board], or an attribute of one of its
    pieces. *)
Definition on_chess_board {A} (m : M A) : AppM A :=
  fun s =>
    match m (chess_board s) with
    | (o, b) => (o, with_chess_board b s)
    end.

(** A method of [self.canvas] that returns an item. *)
Definition on_canvas (m : C -> Item * C) : AppM Item :=
  fun s =>
    match m (canvas s) with
    | (item, c) => (Return item, with_canvas c s)
    end.

Fixpoint app_for_each {A} (xs : list A) (body : A -> AppM unit)
  : AppM unit :=
  match xs with
  | [] => app_ret tt
  | x :: xs' => app_bind (body x) (fun _ => app_for_each xs' body)
  end.

Declare Scope app_scope.
Delimit Scope app_scope with app.
Notation "x <- m ;; k" := (app_bind m (fun x => k))
  (at level 100, m at next level, k at level 200, right associativity)
  : app_scope.
Notation "m ;; k" := (app_bind m (fun _ => k))
  (at level 100, k at level 200, right associativity) : app_scope.

Definition _draw_board : AppM unit :=
  app_for_each (range BOARD_SIZE) (fun row =>
    app_for_each (range BOARD_SIZE) (fun col =>
      (let color :=
         if bool_decide ((row + col) `mod` 2 = 0) then "white"
         else "lightgray" in
       let x1 := col * SQUARE_SIZE in
       let y1 := row * SQUARE_SIZE in
       let x2 := x1 + SQUARE_SIZE in
       let y2 := y1 + SQUARE_SIZE in
       on_canvas (canvas_create_rectangle x1 y1 x2 y2 color "black") ;;
       (if bool_decide (col = 0)
        then
          on_canvas (canvas_create_text (x1 + 10) (y1 + 10)
                       (str (BOARD_SIZE - row)) ("Arial", 8) None) ;;
          app_ret tt
        else app_ret tt) ;;
       (if bool_decide (row = BOARD_SIZE - 1)
        then
          on_canvas (canvas_create_text
                       (x1 + SQUARE_SIZE - 10) (y1 + SQUARE_SIZE - 10)
                       (chr (97 + col)) ("Arial", 8) None) ;;
          app_ret tt
        else app_ret tt))%app)).

Definition _draw_pieces : AppM unit :=
  (drawn <- app_gets drawn_pieces ;;
   app_for_each (dict_values drawn) (fun piece =>
     app_modify (fun s => with_canvas (canvas_delete piece (canvas s)) s)) ;;
   app_modify (with_drawn_pieces []) ;;
   app_for_each (range BOARD_SIZE) (fun row =>
     app_for_each (range BOARD_SIZE) (fun col =>
       piece <- on_chess_board (board_getitem row col) ;;
       match piece with
       | None => app_ret tt
       | Some piece =>
           let x := col * SQUARE_SIZE + SQUARE_SIZE `div` 2 in
           let y := row * SQUARE_SIZE + SQUARE_SIZE `div` 2 in
           text <- on_chess_board (getattr piece symbol) ;;
           piece_color <- on_chess_board (getattr piece color) ;;
           piece_text <-
             on_canvas (canvas_create_text x y text ("Arial", 36)
                          (Some (if bool_decide (piece_color = WHITE)
                                 then "black" else "darkgray"))) ;;
           app_modify (fun s =>
             with_drawn_pieces
               (dict_setitem (drawn_pieces s) (row, col) piece_text) s)
       end)))%app.

Definition on_square_click (event : Event) : AppM unit :=
  let attr_row : ChessPiece -> Z := row in
  let attr_col : ChessPiece -> Z := col in
  (let col := ev_x event `div` SQUARE_SIZE in
   let row := ev_y event `div` SQUARE_SIZE in
   if (0 <=? row) && (row <? BOARD_SIZE) &&
      (0 <=? col) && (col <? BOARD_SIZE)
   then
     clicked_piece <- on_chess_board (board_getitem row col) ;;
     selected <- app_gets selected_piece ;;
     match selected with
     | Some selected =>
         from_row <- on_chess_board (getattr selected attr_row) ;;
         from_col <- on_chess_board (getattr selected attr_col) ;;
         success <- on_chess_board (move_piece from_row from_col row col) ;;
         (if success : bool
          then
            _draw_pieces ;;
            turn <- on_chess_board (gets current_turn) ;;
            let turn_text :=
              if bool_decide (turn = WHITE) then "White's Turn"
              else "Black's Turn" in
            app_modify (with_status_label turn_text)
          else app_ret tt) ;;
         app_modify (with_selected_piece None)
     | None =>
         match clicked_piece with
         | Some clicked_piece =>
             clicked_color <- on_chess_board (getattr clicked_piece color) ;;
             turn <- on_chess_board (gets current_turn) ;;
             if bool_decide (clicked_color = turn)
             then app_modify (with_selected_piece (Some clicked_piece))
             else app_ret tt
         | None => app_ret tt
         end
     end
   else app_ret tt)%app.

(** [ChessApp.__init__] on a new canvas. *)
Definition ChessApp_init (new_canvas : C) : outcome ChessApp :=
  match ChessBoard_init 8 [] with
  | Raise e => Raise e
  | Return b =>
      let self := mkApp new_canvas b [] None "" in
      match (_draw_board ;; _draw_pieces)%app self with
      | (Return _, self) =>
          Return (with_status_label "White's Turn"
                    (with_selected_piece None self))
      | (Raise e, _) => Raise e
      end
  end.

End App.

(** * Vocabulary of the properties

    The definitions below are not part of the program: they name what
    the theorems talk about. *)

(** The content of the grid at a position counted from the start:
    [None] where the grid has no such position. *)
Definition cell {A} (b : list (list A)) (x y : nat) : option A :=
  match b !! x with
  | Some row => row !! y
  | None => None
  end.

(** The position that a pair of Python indices denotes, if any. *)
Definition locate {A} (b : list (list A)) (r c : Z) : option (nat * nat) :=
  match norm_index (length b) r with
  | Return x =>
      match b !! x with
      | Some row =>
          match norm_index (length row) c with
          | Return y => Some (x, y)
          | Raise _ => None
          end
      | None => None
      end
  | Raise _ => None
  end.

(** What [is_valid_move] computes, as a function of the state. *)
Definition valid_move_result (s : ChessBoard) (piece : ref)
    (new_row new_col : Z) : outcome bool :=
  if (new_row <? 0) || (new_row >=? size s) ||
     (new_col <? 0) || (new_col >=? size s)
  then Return false
  else
    match grid_getitem (board s) new_row new_col with
    | Raise e => Raise e
    | Return None => Return true
    | Return (Some d) =>
        match pieces s !! d, pieces s !! piece with
        | Some dp, Some pp =>
            Return (negb (bool_decide (color dp = color pp)))
        | _, _ => Raise DanglingRef
        end
    end.

(** The part of [move_piece] after its three checks. *)
Definition commit_move (piece : ref) (from_row from_col to_row to_col : Z)
  : M bool :=
  (capture <- board_getitem to_row to_col ;;
   let move_record :=
     mkMove piece (from_row, from_col) (to_row, to_col) capture in
   modify (fun s =>
     with_move_history (move_history s ++ [move_record]) s) ;;
   board_setitem to_row to_col (Some piece) ;;
   board_setitem from_row from_col None ;;
   setattr piece (set_row to_row) ;;
   setattr piece (set_col to_col) ;;
   setattr piece (set_has_moved true) ;;
   turn <- gets current_turn ;;
   modify (with_current_turn
             (if bool_decide (turn = WHITE) then BLACK else WHITE)) ;;
   ret true)%M.

(** The state after a move of [piece] from position [src] to position
    [dst], logged as [rec]. *)
Record moved (s s' : ChessBoard) (piece : ref) (src dst : nat * nat)
    (to_row to_col : Z) (rec : MoveRecord) : Prop := mkMoved {
  moved_size : size s' = size s;
  moved_shape : length <$> board s' = length <$> board s;
  moved_cell : forall x y,
    cell (board s') x y =
    if decide ((x, y) = src) then Some None
    else if decide ((x, y) = dst) then Some (Some piece)
    else cell (board s) x y;
  moved_pieces : exists pp,
    pieces s !! piece = Some pp /\
    pieces s' =
    <[piece := mkPiece (type pp) (color pp) to_row to_col true (symbol pp)]>
      (pieces s);
  moved_turn :
    current_turn s' =
    if bool_decide (current_turn s = WHITE) then BLACK else WHITE;
  moved_history : move_history s' = move_history s ++ [rec]
}.

(** The three ways a call of [move_piece] can end. *)
Inductive move_outcome (s : ChessBoard) (from_row from_col to_row to_col : Z)
  : outcome bool * ChessBoard -> Prop :=
| move_raises e :
    grid_getitem (board s) from_row from_col = Raise e \/
    (exists piece,
       grid_getitem (board s) from_row from_col = Return (Some piece) /\
       (pieces s !! piece = None /\ e = DanglingRef \/
        valid_move_result s piece to_row to_col = Raise e)) ->
    move_outcome s from_row from_col to_row to_col (Raise e, s)
| move_refused :
    grid_getitem (board s) from_row from_col = Return None \/
    (exists piece pp,
       grid_getitem (board s) from_row from_col = Return (Some piece) /\
       pieces s !! piece = Some pp /\
       (color pp <> current_turn s \/
        color pp = current_turn s /\
        valid_move_result s piece to_row to_col = Return false)) ->
    move_outcome s from_row from_col to_row to_col (Return false, s)
| move_done piece pp src dst capture s' :
    locate (board s) from_row from_col = Some src ->
    cell (board s) src.1 src.2 = Some (Some piece) ->
    pieces s !! piece = Some pp ->
    color pp = current_turn s ->
    valid_move_result s piece to_row to_col = Return true ->
    dst = (Z.to_nat to_row, Z.to_nat to_col) ->
    cell (board s) dst.1 dst.2 = Some capture ->
    src <> dst ->
    moved s s' piece src dst to_row to_col
      (mkMove piece (from_row, from_col) (to_row, to_col) capture) ->
    move_outcome s from_row from_col to_row to_col (Return true, s').

(** A board as [ChessBoard()] builds it: [size] is 8, the grid has 8
    rows of 8 cells, and every reference in the grid denotes an object
    of the store. *)
Definition wf (s : ChessBoard) : Prop :=
  size s = 8 /\
  length <$> board s = replicate 8 8%nat /\
  forall x y p, cell (board s) x y = Some (Some p) -> is_Some (pieces s !! p).

(** The piece object in the cell [self.board[r][c]], if the cell exists
    and is not empty. *)
Definition piece_at (s : ChessBoard) (r c : Z) : option ChessPiece :=
  match grid_getitem (board s) r c with
  | Return (Some p) => pieces s !! p
  | _ => None
  end.

(** A piece is on the board when some cell of the grid refers to it. *)
Definition on_board (s : ChessBoard) (p : ref) : Prop :=
  exists x y, cell (board s) x y = Some (Some p).

(** The piece in a cell stores the coordinates of that cell. *)
Definition positions_agree (s : ChessBoard) : Prop :=
  forall x y p, cell (board s) x y = Some (Some p) ->
    exists pp, pieces s !! p = Some pp /\
               row pp = Z.of_nat x /\ col pp = Z.of_nat y.

(** A cell is occupied exactly when a piece on the board stores its
    coordinates. *)
Definition occupancy_agrees (s : ChessBoard) : Prop :=
  forall x y,
    (exists p, cell (board s) x y = Some (Some p)) <->
    (exists p pp, on_board s p /\ pieces s !! p = Some pp /\
                  row pp = Z.of_nat x /\ col pp = Z.of_nat y).

Definition board_invariant (s : ChessBoard) : Prop :=
  positions_agree s /\ occupancy_agrees s.

(** Checking a property of every cell by computation. *)
Definition grid_forallb {A} (f : nat -> nat -> A -> bool) (b : list (list A))
  : bool :=
  forallb id (imap (fun x row => forallb id (imap (f x) row)) b).

Definition wf_check (s : ChessBoard) : bool :=
  bool_decide (size s = 8) &&
  bool_decide (length <$> board s = replicate 8 8%nat) &&
  grid_forallb (fun _ _ v =>
    match v with
    | Some p => bool_decide (is_Some (pieces s !! p))
    | None => true
    end) (board s).

Definition positions_check (s : ChessBoard) : bool :=
  grid_forallb (fun x y v =>
    match v with
    | Some p =>
        match pieces s !! p with
        | Some pp =>
            bool_decide (row pp = Z.of_nat x) &&
            bool_decide (col pp = Z.of_nat y)
        | None => false
        end
    | None => true
    end) (board s).

(** The boards a program can hold: the fresh one, and each board left
    behind by a call of [move_piece], however the call ends. *)
Inductive reachable : ChessBoard -> Prop :=
| reachable_fresh : reachable fresh
| reachable_move s from_row from_col to_row to_col :
    reachable s ->
    reachable (move_piece from_row from_col to_row to_col s).2.

(** The piece objects the grid refers to, row by row. *)
Definition pieces_on_board (s : ChessBoard) : list ChessPiece :=
  omap (fun v : option ref => p ← v; pieces s !! p) (concat (board s)).

(** Type, color and [has_moved] of the piece in a cell. *)
Definition look (s : ChessBoard) (r c : Z)
  : option (PieceType * Color * bool) :=
  (fun p => (type p, color p, has_moved p)) <$> piece_at s r c.

Definition back_rank : list PieceType :=
  [ROOK; KNIGHT; BISHOP; QUEEN; KING; BISHOP; KNIGHT; ROOK].

(** [evolves s s']: the board [s'] is what some sequence of calls of
    [move_piece], each ending as it may, leaves of the board [s]. *)
Inductive evolves (s : ChessBoard) : ChessBoard -> Prop :=
| evolves_refl : evolves s s
| evolves_step s' from_row from_col to_row to_col :
    evolves s s' ->
    evolves s (move_piece from_row from_col to_row to_col s').2.

(** The [row], [col] and [has_moved] of a piece are what [move_piece]
    writes; the rest of the object is its identity. *)
Definition identity_of (p : ChessPiece) : PieceType * Color * string :=
  (type p, color p, symbol p).

(** A grid of [n] rows of [n] cells. *)
Definition square (n : nat) (s : ChessBoard) : Prop :=
  length <$> board s = replicate n n.

(** Every reference in the grid denotes an object of the store. *)
Definition refs_valid (s : ChessBoard) : Prop :=
  forall x y p, cell (board s) x y = Some (Some p) -> is_Some (pieces s !! p).

Section AppVocabulary.
Context {C Item : Type}.

(** The cell [self.board[r][c]] holds a piece. *)
Definition occupied (b : ChessBoard) (r c : Z) : Prop :=
  exists p, grid_getitem (board b) r c = Return (Some p).

(** The text that names the side to move. *)
Definition turn_text (c : Color) : string :=
  match c with
  | WHITE => "White's Turn"
  | BLACK => "Black's Turn"
  end.

(** The square [(row, col)] a pixel lies in. *)
Definition square_of (event : Event) : Z * Z :=
  (ev_y event `div` SQUARE_SIZE, ev_x event `div` SQUARE_SIZE).

(** The selected piece, if there is one, is on the board and of the
    color to move. *)
Definition selection_ok (app : @ChessApp C Item) : Prop :=
  forall sel, selected_piece app = Some sel ->
    on_board (chess_board app) sel /\
    exists pp, pieces (chess_board app) !! sel = Some pp /\
               color pp = current_turn (chess_board app).

(** The squares with a drawn piece are the occupied cells. *)
Definition drawn_ok (app : @ChessApp C Item) : Prop :=
  forall k, k ∈ (drawn_pieces app).*1 <->
    exists r c, 0 <= r < 8 /\ 0 <= c < 8 /\ k = (r, c) /\
                occupied (chess_board app) r c.

(** What holds of the window between two events. *)
Definition app_ok (app : @ChessApp C Item) : Prop :=
  wf (chess_board app) /\
  board_invariant (chess_board app) /\
  selection_ok app /\
  status_label app = turn_text (current_turn (chess_board app)) /\
  drawn_ok app.

(** Two states of the window that differ in the canvas and the drawn
    items at most. *)
Definition same_model (app0 app : @ChessApp C Item) : Prop :=
  chess_board app = chess_board app0 /\
  selected_piece app = selected_piece app0 /\
  status_label app = status_label app0.

End AppVocabulary.

Section AppRuns.
Context {C Item : Type} `{!Canvas C Item} `{!Builtins}.

(** The clicks of a session, handled one after the other as the event
    loop of the toolkit delivers them. *)
Definition handle_clicks (events : list Event) : @AppM C Item unit :=
  app_for_each events on_square_click.

End AppRuns.

(** A canvas for examples: the items created so far, a deleted item
    leaving a hole, and an item being its position. *)
Inductive Shape :=
| Rectangle (x1 y1 x2 y2 : Z) (fill outline : string)
| Text (x y : Z) (text : string) (font : string * Z) (fill : option string).

#[global] Instance list_canvas : Canvas (list (option Shape)) nat := {
  canvas_create_rectangle x1 y1 x2 y2 fill outline c :=
    (length c, c ++ [Some (Rectangle x1 y1 x2 y2 fill outline)]);
  canvas_create_text x y text font fill c :=
    (length c, c ++ [Some (Text x y text font fill)]);
  canvas_delete item c := <[item := None]> c
}.

(** [str] on integers and [chr] on the code points below 128, for
    examples. *)
#[global] Instance example_builtins : Builtins := {
  str n := pretty n;
  chr n := String (Ascii.ascii_of_N (Z.to_N n)) EmptyString
}.

(** The window of a freshly started program on the example canvas. *)
Definition example_app : @ChessApp (list (option Shape)) nat :=
  Eval vm_compute in
  match ChessApp_init [] with
  | Return a => a
  | Raise _ => mkApp [] fresh [] None ""
  end.

(** * Properties *)

(** ** Subscription *)

Lemma list_getitem_norm {A} (l : list A) (i : Z) :
  list_getitem l i =
  match norm_index (length l) i with
  | Return n =>
      match l !! n with Some x => Return x | None => Raise IndexError end
  | Raise e => Raise e
  end.
Proof. reflexivity. Qed.

Section Subscription.
Context {A : Type}.
Implicit Types (l : list A) (b : list (list A)) (i r c : Z) (n : nat).

Lemma norm_index_Return len i n :
  norm_index len i = Return n <->
  (0 <= i < Z.of_nat len /\ n = Z.to_nat i) \/
  (- Z.of_nat len <= i < 0 /\ n = Z.to_nat (i + Z.of_nat len)).
Proof.
  unfold norm_index.
  destruct (Z.ltb_spec i 0);
    [destruct (Z.ltb_spec (i + Z.of_nat len) 0);
     destruct (Z.geb_spec (i + Z.of_nat len) (Z.of_nat len))
    |destruct (Z.ltb_spec i 0); destruct (Z.geb_spec i (Z.of_nat len))];
    simpl; split; intros Hn; try discriminate; try lia;
    try (injection Hn as <-; lia);
    destruct Hn as [[? ->]|[? ->]]; try lia; reflexivity.
Qed.

Lemma norm_index_Raise len i e :
  norm_index len i = Raise e <->
  e = IndexError /\ (i < - Z.of_nat len \/ Z.of_nat len <= i).
Proof.
  unfold norm_index.
  destruct (Z.ltb_spec i 0);
    [destruct (Z.ltb_spec (i + Z.of_nat len) 0);
     destruct (Z.geb_spec (i + Z.of_nat len) (Z.of_nat len))
    |destruct (Z.ltb_spec i 0); destruct (Z.geb_spec i (Z.of_nat len))];
    simpl; split; intros Hn; try discriminate; try lia;
    try (injection Hn as <-; split; [reflexivity|lia]);
    destruct Hn as [-> ?]; reflexivity.
Qed.

Lemma norm_index_lt len i n : norm_index len i = Return n -> (n < len)%nat.
Proof. rewrite norm_index_Return. lia. Qed.

Lemma locate_is_cell b r c x y :
  locate b r c = Some (x, y) -> is_Some (cell b x y).
Proof.
  unfold locate, cell.
  destruct (norm_index (length b) r) as [x'|] eqn:Hx; [|discriminate].
  destruct (b !! x') as [row|] eqn:Hrow; [|discriminate].
  destruct (norm_index (length row) c) as [y'|] eqn:Hy; [|discriminate].
  intros [= <- <-]. rewrite Hrow.
  apply lookup_lt_is_Some. eauto using norm_index_lt.
Qed.

Lemma grid_getitem_Return b r c v :
  grid_getitem b r c = Return v <->
  exists x y, locate b r c = Some (x, y) /\ cell b x y = Some v.
Proof.
  unfold grid_getitem, locate, cell, obind. rewrite list_getitem_norm.
  destruct (norm_index (length b) r) as [x|] eqn:Hx.
  - destruct (b !! x) as [row|] eqn:Hrow.
    + rewrite list_getitem_norm.
      destruct (norm_index (length row) c) as [y|] eqn:Hy.
      * pose proof (norm_index_lt _ _ _ Hy) as Hlt.
        apply lookup_lt_is_Some in Hlt as [w Hw]. rewrite Hw. split.
        -- intros [= <-]. exists x, y. rewrite Hrow. auto.
        -- intros (x' & y' & [= <- <-] & Hc). rewrite Hrow, Hw in Hc.
           congruence.
      * split; [discriminate|]. intros (? & ? & ? & _). discriminate.
    + split; [discriminate|]. intros (? & ? & ? & _). discriminate.
  - split; [discriminate|]. intros (? & ? & ? & _). discriminate.
Qed.

Lemma grid_getitem_Raise b r c e :
  grid_getitem b r c = Raise e <-> e = IndexError /\ locate b r c = None.
Proof.
  unfold grid_getitem, locate, obind. rewrite list_getitem_norm.
  destruct (norm_index (length b) r) as [x|e'] eqn:Hx.
  - destruct (b !! x) as [row|] eqn:Hrow.
    + rewrite list_getitem_norm.
      destruct (norm_index (length row) c) as [y|e'] eqn:Hy.
      * pose proof (norm_index_lt _ _ _ Hy) as Hlt.
        apply lookup_lt_is_Some in Hlt as [w Hw]. rewrite Hw.
        split; [discriminate|]. intros [_ ?]. discriminate.
      * apply norm_index_Raise in Hy as [-> _].
        split; [intros [= <-]|intros [-> _]]; auto.
    + split; [intros [= <-]|intros [-> _]]; auto.
  - apply norm_index_Raise in Hx as [-> _].
    split; [intros [= <-]|intros [-> _]]; auto.
Qed.

Lemma grid_setitem_Raise b r c v :
  locate b r c = None -> grid_setitem b r c v = Raise IndexError.
Proof.
  unfold grid_setitem, locate, obind, list_setitem. rewrite list_getitem_norm.
  destruct (norm_index (length b) r) as [x|e'] eqn:Hx.
  - destruct (b !! x) as [row|] eqn:Hrow; [|reflexivity].
    unfold obind.
    destruct (norm_index (length row) c) as [y|e'] eqn:Hy; [discriminate|].
    apply norm_index_Raise in Hy as [-> _]. reflexivity.
  - apply norm_index_Raise in Hx as [-> _]. reflexivity.
Qed.

Lemma grid_setitem_Return b r c v x y :
  locate b r c = Some (x, y) ->
  exists b',
    grid_setitem b r c v = Return b' /\
    length <$> b' = length <$> b /\
    forall x' y',
      cell b' x' y' =
      if decide ((x', y') = (x, y)) then Some v else cell b x' y'.
Proof.
  unfold grid_setitem, locate, obind, list_setitem. rewrite list_getitem_norm.
  destruct (norm_index (length b) r) as [x0|] eqn:Hx; [|discriminate].
  destruct (b !! x0) as [row|] eqn:Hrow; [|discriminate].
  unfold obind.
  destruct (norm_index (length row) c) as [y0|] eqn:Hy; [|discriminate].
  intros [= <- <-]. eexists. split; [reflexivity|].
  pose proof (norm_index_lt _ _ _ Hx) as Hxlt.
  pose proof (norm_index_lt _ _ _ Hy) as Hylt.
  split.
  - apply list_eq. intros n. rewrite !list_lookup_fmap.
    destruct (decide (n = x0)) as [->|Hne].
    + rewrite list_lookup_insert_eq by done. rewrite Hrow. simpl.
      by rewrite length_insert.
    + by rewrite list_lookup_insert_ne.
  - intros x' y'. unfold cell.
    destruct (decide (x' = x0)) as [->|Hne].
    + rewrite list_lookup_insert_eq by done. rewrite Hrow.
      destruct (decide (y' = y0)) as [->|Hne'].
      * rewrite list_lookup_insert_eq by done. by rewrite decide_True.
      * rewrite list_lookup_insert_ne by done.
        rewrite decide_False by congruence. done.
    + rewrite list_lookup_insert_ne by done.
      rewrite decide_False by congruence. done.
Qed.

Lemma locate_shape b b' r c :
  length <$> b' = length <$> b -> locate b' r c = locate b r c.
Proof.
  intros Hshape. unfold locate.
  assert (length b' = length b) as ->.
  { rewrite <- (length_fmap length b'), Hshape. apply length_fmap. }
  destruct (norm_index (length b) r) as [x|] eqn:Hx; [|reflexivity].
  assert (length <$> b' !! x = length <$> b !! x) as Hrow.
  { rewrite <- !list_lookup_fmap. by rewrite Hshape. }
  destruct (b' !! x) as [row'|], (b !! x) as [row|]; simplify_eq/=; try done.
  by rewrite Hrow.
Qed.

End Subscription.

(** ** Running the methods *)

Lemma is_valid_move_run s piece new_row new_col :
  is_valid_move piece new_row new_col s =
  (valid_move_result s piece new_row new_col, s).
Proof.
  unfold valid_move_result.
  cbv [is_valid_move bind gets ret board_getitem lift getattr].
  destruct (_ || _); [reflexivity|].
  destruct (grid_getitem _ _ _) as [[d|]|]; try reflexivity.
  destruct (pieces s !! d) as [dp|]; [|reflexivity].
  destruct (pieces s !! piece) as [pp|]; [|reflexivity].
  destruct (bool_decide _); reflexivity.
Qed.

Lemma move_piece_run s from_row from_col to_row to_col :
  move_piece from_row from_col to_row to_col s =
  match grid_getitem (board s) from_row from_col with
  | Raise e => (Raise e, s)
  | Return None => (Return false, s)
  | Return (Some piece) =>
      match pieces s !! piece with
      | None => (Raise DanglingRef, s)
      | Some pp =>
          if bool_decide (color pp <> current_turn s) then (Return false, s)
          else
            match valid_move_result s piece to_row to_col with
            | Raise e => (Raise e, s)
            | Return false => (Return false, s)
            | Return true =>
                commit_move piece from_row from_col to_row to_col s
            end
      end
  end.
Proof.
  unfold move_piece.
  cbv [bind board_getitem gets lift]. cbv beta.
  destruct (grid_getitem _ _ _) as [[piece|]|]; try reflexivity.
  cbv [getattr].
  destruct (pieces s !! piece) as [pp|]; [|reflexivity].
  destruct (bool_decide _); [reflexivity|].
  rewrite is_valid_move_run.
  destruct (valid_move_result _ _ _ _) as [[|]|]; reflexivity.
Qed.

Lemma bind_Return {A B} (m : M A) (k : A -> M B) s a s1 :
  m s = (Return a, s1) -> bind m k s = k a s1.
Proof. unfold bind. by intros ->. Qed.

Lemma board_getitem_run s r c :
  board_getitem r c s = (grid_getitem (board s) r c, s).
Proof. reflexivity. Qed.

Lemma board_setitem_run s r c v b' :
  grid_setitem (board s) r c v = Return b' ->
  board_setitem r c v s = (Return tt, with_board b' s).
Proof. cbv [board_setitem bind gets lift modify]. by intros ->. Qed.

Lemma setattr_run s piece upd pp :
  pieces s !! piece = Some pp ->
  setattr piece upd s =
  (Return tt, with_pieces (<[piece := upd pp]> (pieces s)) s).
Proof. unfold setattr. by intros ->. Qed.

Lemma commit_move_run s piece pp from_row from_col to_row to_col src dst :
  pieces s !! piece = Some pp ->
  locate (board s) from_row from_col = Some src ->
  locate (board s) to_row to_col = Some dst ->
  exists s' capture,
    commit_move piece from_row from_col to_row to_col s = (Return true, s') /\
    cell (board s) dst.1 dst.2 = Some capture /\
    moved s s' piece src dst to_row to_col
      (mkMove piece (from_row, from_col) (to_row, to_col) capture).
Proof.
  intros Hpp Hsrc Hdst. destruct src as [i j], dst as [k l].
  destruct (locate_is_cell _ _ _ _ _ Hdst) as [capture Hcap].
  assert (grid_getitem (board s) to_row to_col = Return capture) as Hget.
  { apply grid_getitem_Return. eauto. }
  destruct (grid_setitem_Return (board s) to_row to_col (Some piece) k l Hdst)
    as (b1 & Hset1 & Hshape1 & Hcell1).
  assert (locate b1 from_row from_col = Some (i, j)) as Hsrc1.
  { by rewrite (locate_shape (board s) b1). }
  destruct (grid_setitem_Return b1 from_row from_col None i j Hsrc1)
    as (b2 & Hset2 & Hshape2 & Hcell2).
  pose proof (lookup_lt_Some _ _ _ Hpp) as Hlt.
  eexists _, capture. split; [|split; [exact Hcap|]].
  - unfold commit_move.
    erewrite bind_Return by (rewrite board_getitem_run, Hget; reflexivity).
    erewrite bind_Return by reflexivity.
    erewrite bind_Return by (apply board_setitem_run; exact Hset1).
    erewrite bind_Return by (apply board_setitem_run; exact Hset2).
    erewrite bind_Return by (apply setattr_run; exact Hpp).
    erewrite bind_Return
      by (apply setattr_run; simpl; by apply list_lookup_insert_eq).
    erewrite bind_Return.
    2:{ apply setattr_run; simpl. apply list_lookup_insert_eq.
        by rewrite length_insert. }
    reflexivity.
  - split; simpl; try done.
    + congruence.
    + intros x y. rewrite Hcell2, Hcell1. done.
    + exists pp. split; [done|]. by rewrite !list_insert_insert_eq.
Qed.

(** What [is_valid_move] has established when it answers [True]. *)
Lemma valid_move_result_true s piece to_row to_col :
  valid_move_result s piece to_row to_col = Return true ->
  0 <= to_row < size s /\ 0 <= to_col < size s /\
  exists capture,
    locate (board s) to_row to_col = Some (Z.to_nat to_row, Z.to_nat to_col) /\
    cell (board s) (Z.to_nat to_row) (Z.to_nat to_col) = Some capture /\
    forall d, capture = Some d ->
      exists dp pp, pieces s !! d = Some dp /\ pieces s !! piece = Some pp /\
                    color dp <> color pp.
Proof.
  unfold valid_move_result.
  destruct (Z.ltb_spec to_row 0); [discriminate|].
  destruct (Z.geb_spec to_row (size s)); [discriminate|].
  destruct (Z.ltb_spec to_col 0); [discriminate|].
  destruct (Z.geb_spec to_col (size s)); [discriminate|]. simpl.
  destruct (grid_getitem _ _ _) as [capture|] eqn:Hget; [|by destruct e].
  apply grid_getitem_Return in Hget as (x & y & Hloc & Hcell).
  assert (x = Z.to_nat to_row /\ y = Z.to_nat to_col) as [-> ->].
  { unfold locate in Hloc.
    destruct (norm_index _ to_row) as [x'|] eqn:Hx; [|discriminate].
    destruct (board s !! x') as [row|]; [|discriminate].
    destruct (norm_index _ to_col) as [y'|] eqn:Hy; [|discriminate].
    apply norm_index_Return in Hx, Hy. simplify_eq. lia. }
  intros Hres. repeat split; try lia. exists capture. repeat split; try done.
  intros d ->.
  destruct (pieces s !! d) as [dp|]; [|discriminate].
  destruct (pieces s !! piece) as [pp|]; [|discriminate].
  exists dp, pp. repeat split; try done.
  intros Heq. rewrite bool_decide_eq_true_2 in Hres by done. discriminate.
Qed.

Lemma move_piece_cases s from_row from_col to_row to_col :
  move_outcome s from_row from_col to_row to_col
    (move_piece from_row from_col to_row to_col s).
Proof.
  rewrite move_piece_run.
  destruct (grid_getitem _ _ _) as [[piece|]|e] eqn:Hget.
  - destruct (pieces s !! piece) as [pp|] eqn:Hpp.
    + destruct (bool_decide_reflect (color pp <> current_turn s)) as [Hc|Hc].
      { apply move_refused. right. exists piece, pp. auto. }
      assert (color pp = current_turn s) as Hturn.
      { destruct (decide (color pp = current_turn s)); [done|]. by destruct Hc. }
      destruct (valid_move_result _ _ _ _) as [[|]|e] eqn:Hvalid.
      * pose proof (valid_move_result_true _ _ _ _ Hvalid)
          as (_ & _ & capture & Hdst & Hcap & Hcolor).
        apply grid_getitem_Return in Hget as (x & y & Hsrc & Hcell).
        destruct (commit_move_run s piece pp from_row from_col to_row to_col
                    _ _ Hpp Hsrc Hdst) as (s' & capture' & -> & Hcap' & Hmoved).
        simpl in Hcap'. rewrite Hcap in Hcap'. injection Hcap' as <-.
        eapply move_done; eauto.
        intros [= -> ->]. simpl in *.
        rewrite Hcell in Hcap. injection Hcap as <-.
        destruct (Hcolor piece eq_refl) as (dp & pp' & ? & ? & ?).
        congruence.
      * apply move_refused. right. exists piece, pp. auto.
      * apply move_raises. right. exists piece. auto.
    + apply move_raises. right. exists piece. auto.
  - apply move_refused. by left.
  - apply move_raises. by left.
Qed.

(** ** Well-formed boards and the board invariant *)

Lemma positions_agree_unique s x y x' y' p :
  positions_agree s ->
  cell (board s) x y = Some (Some p) ->
  cell (board s) x' y' = Some (Some p) ->
  (x, y) = (x', y').
Proof.
  intros Hinv H1 H2.
  destruct (Hinv _ _ _ H1) as (pp & Hpp & Hr & Hc).
  destruct (Hinv _ _ _ H2) as (pp' & Hpp' & Hr' & Hc').
  simplify_eq. f_equal; lia.
Qed.

Lemma positions_agree_invariant s : positions_agree s -> board_invariant s.
Proof.
  intros Hinv. split; [done|]. intros x y. split.
  - intros [p Hp]. destruct (Hinv _ _ _ Hp) as (pp & ? & ? & ?).
    exists p, pp. repeat split; try done. by exists x, y.
  - intros (p & pp & (x' & y' & Hp) & Hpp & Hr & Hc).
    destruct (Hinv _ _ _ Hp) as (pp' & Hpp' & Hr' & Hc').
    assert (x' = x /\ y' = y) as [-> ->] by (simplify_eq; lia).
    by exists p.
Qed.

Lemma forallb_imap_lookup {A} (f : nat -> A -> bool) (l : list A) i a :
  forallb id (imap f l) = true -> l !! i = Some a -> f i a = true.
Proof.
  rewrite forallb_forall. intros Hall Hi.
  apply (Hall (f i a)). apply list_elem_of_In, list_elem_of_lookup.
  exists i. by rewrite list_lookup_imap, Hi.
Qed.

Lemma grid_forallb_cell {A} (f : nat -> nat -> A -> bool) b x y v :
  grid_forallb f b = true -> cell b x y = Some v -> f x y v = true.
Proof.
  unfold grid_forallb, cell. intros Hall Hcell.
  destruct (b !! x) as [row|] eqn:Hrow; [|discriminate].
  pose proof (forallb_imap_lookup _ _ _ _ Hall Hrow) as Hrowall.
  by apply (forallb_imap_lookup _ _ _ _ Hrowall).
Qed.

Lemma wf_check_sound s : wf_check s = true -> wf s.
Proof.
  unfold wf_check. rewrite !andb_true_iff, !bool_decide_eq_true.
  intros [[Hsize Hshape] Hrefs]. repeat split; try done.
  intros x y p Hcell.
  apply (grid_forallb_cell _ _ _ _ _ Hrefs) in Hcell. simpl in Hcell.
  by apply bool_decide_eq_true in Hcell.
Qed.

Lemma positions_check_sound s : positions_check s = true -> board_invariant s.
Proof.
  intros Hall. apply positions_agree_invariant. intros x y p Hcell.
  apply (grid_forallb_cell _ _ _ _ _ Hall) in Hcell. simpl in Hcell.
  destruct (pieces s !! p) as [pp|]; [|discriminate].
  apply andb_true_iff in Hcell as [?%bool_decide_eq_true ?%bool_decide_eq_true].
  by exists pp.
Qed.

Lemma fresh_built : ChessBoard_init 8 [] = Return fresh.
Proof. vm_compute. reflexivity. Qed.

Lemma fresh_wf : wf fresh.
Proof. apply wf_check_sound. vm_compute. reflexivity. Qed.

Lemma fresh_invariant : board_invariant fresh.
Proof. apply positions_check_sound. vm_compute. reflexivity. Qed.

(** On a well-formed board a pair of indices denotes a position exactly
    when each index does in a list of length 8. *)
Lemma wf_locate s r c :
  wf s ->
  locate (board s) r c =
  match norm_index 8 r, norm_index 8 c with
  | Return x, Return y => Some (x, y)
  | _, _ => None
  end.
Proof.
  intros (_ & Hshape & _). unfold locate.
  assert (length (board s) = 8%nat) as ->.
  { rewrite <- (length_fmap length), Hshape. apply length_replicate. }
  destruct (norm_index 8 r) as [x|] eqn:Hx; [|reflexivity].
  pose proof (norm_index_lt _ _ _ Hx) as Hlt.
  assert (length <$> board s !! x = Some 8%nat) as Hrow.
  { rewrite <- list_lookup_fmap, Hshape. by apply lookup_replicate_2. }
  destruct (board s !! x) as [row|]; [|discriminate].
  injection Hrow as ->. by destruct (norm_index 8 c).
Qed.

Lemma wf_locate_Some s r c :
  wf s -> -8 <= r < 8 -> -8 <= c < 8 -> is_Some (locate (board s) r c).
Proof.
  intros Hwf Hr Hc. rewrite wf_locate by done.
  destruct (norm_index 8 r) as [|e] eqn:Hx.
  - destruct (norm_index 8 c) as [|e] eqn:Hy; [done|].
    apply norm_index_Raise in Hy. lia.
  - apply norm_index_Raise in Hx. lia.
Qed.

Lemma wf_locate_None s r c :
  wf s -> ~ (-8 <= r < 8 /\ -8 <= c < 8) -> locate (board s) r c = None.
Proof.
  intros Hwf Hrc. rewrite wf_locate by done.
  destruct (norm_index 8 r) as [x|e] eqn:Hx; [|done].
  destruct (norm_index 8 c) as [y|e] eqn:Hy; [|done].
  apply norm_index_Return in Hx, Hy. lia.
Qed.

Lemma wf_locate_in_bounds s r c :
  wf s -> 0 <= r < 8 -> 0 <= c < 8 ->
  locate (board s) r c = Some (Z.to_nat r, Z.to_nat c).
Proof.
  intros Hwf Hr Hc. rewrite wf_locate by done.
  destruct (norm_index 8 r) as [x|e] eqn:Hx.
  - destruct (norm_index 8 c) as [y|e] eqn:Hy.
    + apply norm_index_Return in Hx, Hy. do 2 f_equal; lia.
    + apply norm_index_Raise in Hy. lia.
  - apply norm_index_Raise in Hx. lia.
Qed.

(** On a well-formed board [is_valid_move] never raises for a piece of
    the store. *)
Lemma wf_valid_move_result s piece pp to_row to_col :
  wf s -> pieces s !! piece = Some pp ->
  valid_move_result s piece to_row to_col =
  Return (bool_decide (0 <= to_row < 8 /\ 0 <= to_col < 8) &&
          match piece_at s to_row to_col with
          | Some dp => negb (bool_decide (color dp = color pp))
          | None => true
          end).
Proof.
  intros Hwf Hpp. pose proof Hwf as (Hsize & _ & Hrefs).
  unfold valid_move_result, piece_at. rewrite Hsize.
  destruct (Z.ltb_spec to_row 0);
    [by rewrite bool_decide_eq_false_2 by lia|].
  destruct (Z.geb_spec to_row 8);
    [by rewrite bool_decide_eq_false_2 by lia|].
  destruct (Z.ltb_spec to_col 0);
    [by rewrite bool_decide_eq_false_2 by lia|].
  destruct (Z.geb_spec to_col 8);
    [by rewrite bool_decide_eq_false_2 by lia|].
  rewrite bool_decide_eq_true_2 by lia. simpl.
  destruct (grid_getitem _ _ _) as [[d|]|e] eqn:Hget; try done.
  - apply grid_getitem_Return in Hget as (x & y & _ & Hcell).
    destruct (Hrefs _ _ _ Hcell) as [dp Hdp]. by rewrite Hdp, Hpp.
  - apply grid_getitem_Raise in Hget as [_ Hnone].
    rewrite wf_locate_in_bounds in Hnone by (done || lia). discriminate.
Qed.

Lemma moved_wf s s' piece src dst to_row to_col rec :
  wf s -> moved s s' piece src dst to_row to_col rec -> wf s'.
Proof.
  intros (Hsize & Hshape & Hrefs) [Hsz Hsh Hcell (pp & Hpp & Hpieces) _ _].
  repeat split; [congruence|congruence|].
  intros x y p. rewrite Hcell, Hpieces.
  intros Hp. apply lookup_lt_is_Some. rewrite length_insert.
  apply lookup_lt_is_Some.
  repeat case_decide; simplify_eq; eauto.
Qed.

Lemma moved_positions_agree s s' piece src dst to_row to_col rec :
  positions_agree s ->
  cell (board s) src.1 src.2 = Some (Some piece) ->
  dst = (Z.to_nat to_row, Z.to_nat to_col) -> 0 <= to_row -> 0 <= to_col ->
  moved s s' piece src dst to_row to_col rec ->
  positions_agree s'.
Proof.
  intros Hinv Hsrc -> Hr Hc [_ _ Hcell (pp & Hpp & Hpieces) _ _] x y p.
  rewrite Hcell, Hpieces. pose proof (lookup_lt_Some _ _ _ Hpp) as Hlt.
  repeat case_decide; simplify_eq.
  - intros [=].
  - intros [= <-]. rewrite list_lookup_insert_eq by done.
    eexists. split; [done|]. simpl. lia.
  - intros Hp. destruct (Hinv _ _ _ Hp) as (qq & Hqq & ? & ?).
    exists qq. split; [|done]. rewrite list_lookup_insert_ne; [done|].
    intros <-. destruct src as [i j]. simpl in Hsrc.
    pose proof (positions_agree_unique _ _ _ _ _ _ Hinv Hsrc Hp). congruence.
Qed.

Lemma move_piece_preserves s from_row from_col to_row to_col :
  wf s /\ board_invariant s ->
  wf (move_piece from_row from_col to_row to_col s).2 /\
  board_invariant (move_piece from_row from_col to_row to_col s).2.
Proof.
  intros [Hwf Hinv].
  destruct (move_piece_cases s from_row from_col to_row to_col)
    as [| |piece pp src dst capture s' Hsrc Hcell Hpp Hturn Hvalid Hdst Hcap
         Hne Hmoved]; try done.
  apply valid_move_result_true in Hvalid as (? & ? & _). simpl. split.
  - eapply moved_wf; eauto.
  - apply positions_agree_invariant.
    eapply moved_positions_agree; eauto; try lia. apply Hinv.
Qed.

Lemma reachable_wf_invariant s : reachable s -> wf s /\ board_invariant s.
Proof.
  induction 1 as [|s fr fc tr tc _ IH].
  - split; [apply fresh_wf|apply fresh_invariant].
  - by apply move_piece_preserves.
Qed.

Lemma piece_at_Some s r c pp :
  piece_at s r c = Some pp <->
  exists p, grid_getitem (board s) r c = Return (Some p) /\
            pieces s !! p = Some pp.
Proof.
  unfold piece_at. destruct (grid_getitem _ _ _) as [[p|]|]; split.
  - intros Hpp. by exists p.
  - intros (p' & [= <-] & Hpp). done.
  - discriminate.
  - intros (? & [=] & _).
  - discriminate.
  - intros (? & [=] & _).
Qed.

(** An exception leaves the state as it was: each of them is raised
    before the first mutation. *)
Lemma move_piece_raise_unchanged s from_row from_col to_row to_col e s' :
  move_piece from_row from_col to_row to_col s = (Raise e, s') -> s' = s.
Proof.
  destruct (move_piece_cases s from_row from_col to_row to_col);
    try discriminate.
  by intros [= _ <-].
Qed.

(** ** Scenarios on the fresh board *)

Example pawn_two_forward :
  let s' := (move_piece 6 4 4 4 fresh).2 in
  (move_piece 6 4 4 4 fresh).1 = Return true /\
  current_turn s' = BLACK /\
  look s' 6 4 = None /\
  look s' 4 4 = Some (PAWN, WHITE, true).
Proof. vm_compute. done. Qed.

Example pawn_diagonal_step : (move_piece 6 4 5 3 fresh).1 = Return true.
Proof. vm_compute. reflexivity. Qed.

Example empty_source : move_piece 4 4 5 5 fresh = (Return false, fresh).
Proof. vm_compute. reflexivity. Qed.

Example out_of_turn : move_piece 1 4 3 4 fresh = (Return false, fresh).
Proof. vm_compute. reflexivity. Qed.

Example own_piece_in_destination :
  move_piece 7 0 6 0 fresh = (Return false, fresh).
Proof. vm_compute. reflexivity. Qed.

Example source_from_the_end :
  (move_piece (-1) 0 5 0 fresh).1 = Return true /\
  look (move_piece (-1) 0 5 0 fresh).2 7 0 = None /\
  look (move_piece (-1) 0 5 0 fresh).2 5 0 = Some (ROOK, WHITE, true).
Proof. vm_compute. done. Qed.

Example source_out_of_range :
  move_piece 8 0 5 0 fresh = (Raise IndexError, fresh).
Proof. vm_compute. reflexivity. Qed.

Example smaller_board_fails : ChessBoard_init 7 [] = Raise IndexError.
Proof. vm_compute. reflexivity. Qed.

(** * The claims *)

(** ** Move application *)

(** C1: on a board as the program builds it and for all integer
    coordinates, [move_piece] returns [True] if and only if the source
    cell [board[from_row][from_col]] holds a piece, that piece's color
    is [current_turn], the destination lies in [0, 8) in both
    components, and the destination cell holds no piece of the same
    color. *)
Theorem move_piece_true_iff s from_row from_col to_row to_col :
  wf s ->
  ((move_piece from_row from_col to_row to_col s).1 = Return true <->
   exists pp,
     piece_at s from_row from_col = Some pp /\
     color pp = current_turn s /\
     (0 <= to_row < 8 /\ 0 <= to_col < 8) /\
     ~ exists dp, piece_at s to_row to_col = Some dp /\ color dp = color pp).
Proof.
  intros Hwf. split.
  - destruct (move_piece_cases s from_row from_col to_row to_col)
      as [| |piece pp src dst capture s' Hsrc Hcell Hpp Hturn Hvalid Hdst Hcap
           Hne Hmoved]; try discriminate.
    intros _. exists pp.
    rewrite (wf_valid_move_result _ _ pp) in Hvalid by done.
    injection Hvalid as Hvalid.
    apply andb_true_iff in Hvalid as [Hbounds%bool_decide_eq_true Hdest].
    repeat split; try done; try lia.
    + apply piece_at_Some. exists piece. split; [|done].
      apply grid_getitem_Return. destruct src. eauto.
    + intros (dp & Hdp & Hcolor). rewrite Hdp in Hdest.
      by rewrite bool_decide_eq_true_2 in Hdest.
  - intros (pp & (piece & Hget & Hpp)%piece_at_Some & Hturn & Hbounds & Hdest).
    rewrite move_piece_run, Hget, Hpp.
    rewrite bool_decide_eq_false_2 by (intros Hc; by apply Hc).
    rewrite (wf_valid_move_result _ _ pp) by done.
    rewrite bool_decide_eq_true_2 by done.
    assert (match piece_at s to_row to_col with
            | Some dp => negb (bool_decide (color dp = color pp))
            | None => true
            end = true) as ->.
    { destruct (piece_at s to_row to_col) as [dp|] eqn:Hdp; [|done].
      rewrite bool_decide_eq_false_2; [done|]. intros Hc. apply Hdest. eauto. }
    simpl.
    apply grid_getitem_Return in Hget as (x & y & Hsrc & _).
    destruct (commit_move_run s piece pp from_row from_col to_row to_col
                (x, y) (Z.to_nat to_row, Z.to_nat to_col) Hpp Hsrc)
      as (s' & capture & -> & _); [|done].
    apply wf_locate_in_bounds; (done || lia).
Qed.

Lemma move_piece_true_iff_witness :
  (move_piece 6 4 4 4 fresh).1 = Return true <->
  exists pp,
    piece_at fresh 6 4 = Some pp /\
    color pp = current_turn fresh /\
    (0 <= 4 < 8 /\ 0 <= 4 < 8) /\
    ~ exists dp, piece_at fresh 4 4 = Some dp /\ color dp = color pp.
Proof.
  apply (move_piece_true_iff fresh 6 4 4 4).
  apply wf_check_sound. vm_compute. reflexivity.
Defined.

(** C2: for every board state, whenever [move_piece] returns [False]
    the whole state (the grid, every piece object with its [row], [col]
    and [has_moved], [move_history] and [current_turn]) is exactly as
    before the call, and the refusal has one of three causes: the
    source cell is empty, the piece there is not of the color to move,
    or [is_valid_move] answered [False]. *)
Theorem move_piece_false_unchanged s from_row from_col to_row to_col s' :
  move_piece from_row from_col to_row to_col s = (Return false, s') ->
  s' = s /\
  (grid_getitem (board s) from_row from_col = Return None \/
   exists piece pp,
     grid_getitem (board s) from_row from_col = Return (Some piece) /\
     pieces s !! piece = Some pp /\
     (color pp <> current_turn s \/
      is_valid_move piece to_row to_col s = (Return false, s))).
Proof.
  destruct (move_piece_cases s from_row from_col to_row to_col)
    as [|Hwhy|]; try discriminate.
  intros [= <-]. split; [done|].
  destruct Hwhy as [?|(piece & pp & ? & ? & Hwhy)]; [by left|right].
  exists piece, pp. repeat split; try done.
  destruct Hwhy as [?|[_ Hvalid]]; [by left|right].
  by rewrite is_valid_move_run, Hvalid.
Qed.

Lemma move_piece_false_unchanged_witness :
  (move_piece 4 4 5 5 fresh).2 = fresh /\
  (grid_getitem (board fresh) 4 4 = Return None \/
   exists piece pp,
     grid_getitem (board fresh) 4 4 = Return (Some piece) /\
     pieces fresh !! piece = Some pp /\
     (color pp <> current_turn fresh \/
      is_valid_move piece 5 5 fresh = (Return false, fresh))).
Proof.
  apply (move_piece_false_unchanged fresh 4 4 5 5).
  vm_compute. reflexivity.
Defined.

(** C3: for every board state, whenever [move_piece] returns [True],
    [current_turn] afterwards is the opposite color of [current_turn]
    before, the moved piece stores the destination as its [row] and
    [col] and has [has_moved] set, the destination cell holds that
    piece and the source cell is empty. *)
Theorem move_piece_true_effects s from_row from_col to_row to_col s' :
  move_piece from_row from_col to_row to_col s = (Return true, s') ->
  exists piece pp',
    grid_getitem (board s) from_row from_col = Return (Some piece) /\
    current_turn s' =
      match current_turn s with WHITE => BLACK | BLACK => WHITE end /\
    pieces s' !! piece = Some pp' /\
    (row pp', col pp') = (to_row, to_col) /\
    has_moved pp' = true /\
    grid_getitem (board s') to_row to_col = Return (Some piece) /\
    grid_getitem (board s') from_row from_col = Return None.
Proof.
  destruct (move_piece_cases s from_row from_col to_row to_col)
    as [| |piece pp src dst capture s1 Hsrc Hcell Hpp Hturn Hvalid Hdst Hcap
         Hne [Hsz Hsh Hcells (pp0 & Hpp0 & Hpieces) Hflip _]];
    try discriminate.
  intros [= <-].
  apply valid_move_result_true in Hvalid as (_ & _ & _ & Hloc & _).
  rewrite <- Hdst in Hloc.
  exists piece. eexists. repeat split.
  - apply grid_getitem_Return. destruct src. eauto.
  - rewrite Hflip. by destruct (current_turn s).
  - rewrite Hpieces. apply list_lookup_insert_eq. by eapply lookup_lt_Some.
  - done.
  - done.
  - apply grid_getitem_Return. destruct dst as [k l]. exists k, l.
    rewrite (locate_shape (board s)) by done. split; [done|].
    rewrite Hcells. rewrite decide_False by congruence.
    by rewrite decide_True.
  - apply grid_getitem_Return. destruct src as [i j]. exists i, j.
    rewrite (locate_shape (board s)) by done. split; [done|].
    rewrite Hcells. by rewrite decide_True.
Qed.

Lemma move_piece_true_effects_witness :
  exists piece pp',
    grid_getitem (board fresh) 6 4 = Return (Some piece) /\
    current_turn (move_piece 6 4 4 4 fresh).2 =
      match current_turn fresh with WHITE => BLACK | BLACK => WHITE end /\
    pieces (move_piece 6 4 4 4 fresh).2 !! piece = Some pp' /\
    (row pp', col pp') = (4, 4) /\
    has_moved pp' = true /\
    grid_getitem (board (move_piece 6 4 4 4 fresh).2) 4 4
      = Return (Some piece) /\
    grid_getitem (board (move_piece 6 4 4 4 fresh).2) 6 4 = Return None.
Proof.
  apply (move_piece_true_effects fresh 6 4 4 4).
  vm_compute. reflexivity.
Defined.

(** C4: on a board that satisfies the board invariant, a successful
    [move_piece] appends exactly one record to [move_history], and a
    call that does not succeed appends none.  The record names the
    moved piece, the source and the destination.  If the destination
    cell held a piece (necessarily of the opposite color), that piece
    is in no cell of the grid afterwards, its object is untouched, and
    the record's captured piece is that piece; if the destination cell
    was empty, the record's captured piece is [None]. *)
Theorem move_piece_history s from_row from_col to_row to_col o s' :
  board_invariant s ->
  move_piece from_row from_col to_row to_col s = (o, s') ->
  (o <> Return true -> move_history s' = move_history s) /\
  (o = Return true ->
   exists piece pp rec,
     grid_getitem (board s) from_row from_col = Return (Some piece) /\
     pieces s !! piece = Some pp /\
     move_history s' = move_history s ++ [rec] /\
     mv_piece rec = piece /\
     mv_from rec = (from_row, from_col) /\
     mv_to rec = (to_row, to_col) /\
     (grid_getitem (board s) to_row to_col = Return None ->
      mv_captured rec = None) /\
     (forall q,
        grid_getitem (board s) to_row to_col = Return (Some q) ->
        mv_captured rec = Some q /\
        ~ on_board s' q /\
        (exists qq, pieces s !! q = Some qq /\ pieces s' !! q = Some qq /\
                    color qq <> color pp))).
Proof.
  intros [Hinv _].
  destruct (move_piece_cases s from_row from_col to_row to_col)
    as [| |piece pp src dst capture s1 Hsrc Hcell Hpp Hturn Hvalid Hdst Hcap
         Hne [Hsz Hsh Hcells (pp0 & Hpp0 & Hpieces) Hflip Hhist]];
    intros [= <- <-]; (split; [try done|try discriminate]).
  intros _.
  apply valid_move_result_true in Hvalid
    as (_ & _ & capture' & Hloc & Hcap' & Hcolor).
  rewrite <- Hdst in Hloc. subst dst. simpl in Hcap.
  rewrite Hcap in Hcap'. injection Hcap' as <-.
  assert (grid_getitem (board s) to_row to_col = Return capture) as Hget.
  { apply grid_getitem_Return. eauto. }
  exists piece, pp. eexists. split.
  { apply grid_getitem_Return. destruct src. eauto. }
  split; [done|]. split; [exact Hhist|]. simpl.
  destruct src as [i j]. simpl in Hcell.
  do 3 (split; [done|]). split.
  { rewrite Hget. by intros [= ->]. }
  intros q Hq. rewrite Hget in Hq. injection Hq as ->.
  split; [done|]. split.
  - intros (x & y & Hq). rewrite Hcells in Hq.
    destruct (decide ((x, y) = (i, j))); [discriminate|].
    destruct (decide ((x, y) = (Z.to_nat to_row, Z.to_nat to_col))).
    + injection Hq as ->.
      pose proof (positions_agree_unique _ _ _ _ _ _ Hinv Hcell Hcap).
      congruence.
    + pose proof (positions_agree_unique _ _ _ _ _ _ Hinv Hq Hcap).
      congruence.
  - destruct (Hcolor q eq_refl) as (qq & pp' & Hqq & Hpp' & Hne').
    exists qq. rewrite Hpieces. simplify_eq. repeat split; try done.
    rewrite list_lookup_insert_ne; [done|]. intros <-.
    pose proof (positions_agree_unique _ _ _ _ _ _ Hinv Hcell Hcap).
    congruence.
Qed.

Lemma move_piece_history_witness :
  (Return true <> Return true ->
   move_history (move_piece 6 4 1 4 fresh).2 = move_history fresh) /\
  (Return true = Return true ->
   exists piece pp rec,
     grid_getitem (board fresh) 6 4 = Return (Some piece) /\
     pieces fresh !! piece = Some pp /\
     move_history (move_piece 6 4 1 4 fresh).2 = move_history fresh ++ [rec] /\
     mv_piece rec = piece /\
     mv_from rec = (6, 4) /\
     mv_to rec = (1, 4) /\
     (grid_getitem (board fresh) 1 4 = Return None ->
      mv_captured rec = None) /\
     (forall q,
        grid_getitem (board fresh) 1 4 = Return (Some q) ->
        mv_captured rec = Some q /\
        ~ on_board (move_piece 6 4 1 4 fresh).2 q /\
        (exists qq, pieces fresh !! q = Some qq /\
                    pieces (move_piece 6 4 1 4 fresh).2 !! q = Some qq /\
                    color qq <> color pp))).
Proof.
  apply (move_piece_history fresh 6 4 1 4).
  - apply positions_check_sound. vm_compute. reflexivity.
  - vm_compute. reflexivity.
Defined.

(** ** The board invariant *)

(** C5: the board invariant (the piece in a cell stores the coordinates
    of that cell, a cell holding one reference at most; and a cell is
    occupied exactly when some piece on the board stores its
    coordinates) holds for the freshly constructed board and is
    preserved by every call of [move_piece], however it ends. *)
Theorem board_invariant_preserved :
  board_invariant fresh /\
  forall s from_row from_col to_row to_col,
    board_invariant s ->
    board_invariant (move_piece from_row from_col to_row to_col s).2.
Proof.
  split; [apply fresh_invariant|].
  intros s from_row from_col to_row to_col Hinv.
  destruct (move_piece_cases s from_row from_col to_row to_col)
    as [| |piece pp src dst capture s' Hsrc Hcell Hpp Hturn Hvalid Hdst Hcap
         Hne Hmoved]; try done.
  apply valid_move_result_true in Hvalid as (? & ? & _). simpl.
  apply positions_agree_invariant.
  eapply moved_positions_agree; eauto; try lia. apply Hinv.
Qed.

Lemma board_invariant_preserved_witness :
  board_invariant (move_piece 6 4 1 4 fresh).2.
Proof.
  apply (proj2 board_invariant_preserved fresh 6 4 1 4).
  apply positions_check_sound. vm_compute. reflexivity.
Defined.

(** ** Construction *)

(** C6: [ChessBoard()] with [size = 8] returns a board with exactly 32
    pieces, 16 of each color: white's back rank on row 7 and pawns on
    row 6, black's back rank on row 0 and pawns on row 1, each back
    rank in the order rook, knight, bishop, queen, king, bishop,
    knight, rook (queen on column 3 and king on column 4), rows 2 to 5
    empty, no piece moved yet, white to move and an empty move log. *)
Theorem fresh_board_layout :
  ChessBoard_init 8 [] = Return fresh /\
  size fresh = 8 /\
  length (pieces fresh) = 32%nat /\
  length (pieces_on_board fresh) = 32%nat /\
  length (filter (fun p => color p = WHITE) (pieces_on_board fresh)) = 16%nat /\
  length (filter (fun p => color p = BLACK) (pieces_on_board fresh)) = 16%nat /\
  look fresh 7 <$> range 8 = (fun t => Some (t, WHITE, false)) <$> back_rank /\
  look fresh 6 <$> range 8 = replicate 8 (Some (PAWN, WHITE, false)) /\
  look fresh 0 <$> range 8 = (fun t => Some (t, BLACK, false)) <$> back_rank /\
  look fresh 1 <$> range 8 = replicate 8 (Some (PAWN, BLACK, false)) /\
  (fun r => look fresh r <$> range 8) <$> [2; 3; 4; 5]
    = replicate 4 (replicate 8 None) /\
  look fresh 7 3 = Some (QUEEN, WHITE, false) /\
  look fresh 7 4 = Some (KING, WHITE, false) /\
  look fresh 0 3 = Some (QUEEN, BLACK, false) /\
  look fresh 0 4 = Some (KING, BLACK, false) /\
  Forall (fun p => has_moved p = false) (pieces fresh) /\
  current_turn fresh = WHITE /\
  move_history fresh = [].
Proof.
  split; [apply fresh_built|].
  repeat split; try (vm_compute; reflexivity).
  apply Forall_forall. intros p Hp.
  repeat (apply elem_of_cons in Hp as [->|Hp]); try reflexivity.
  by apply elem_of_nil in Hp.
Qed.

(** ** Move validation *)

(** C7: [is_valid_move] never changes the state.  On a board as the
    program builds it, it answers [False] exactly when the target lies
    outside [0, 8) in either component or the target cell holds a piece
    of the color of the given piece, and [True] in every other case.
    The answer therefore depends on the given piece through its color
    only, and on the grid through the target cell only: the piece's
    type, its position and the other cells are not looked at. *)
Theorem is_valid_move_spec :
  (forall s piece new_row new_col,
     (is_valid_move piece new_row new_col s).2 = s) /\
  (forall s piece pp new_row new_col,
     wf s ->
     pieces s !! piece = Some pp ->
     exists b,
       is_valid_move piece new_row new_col s = (Return b, s) /\
       (b = false <->
        ~ (0 <= new_row < 8 /\ 0 <= new_col < 8) \/
        exists dp,
          piece_at s new_row new_col = Some dp /\ color dp = color pp) /\
       (b = true <->
        (0 <= new_row < 8 /\ 0 <= new_col < 8) /\
        ~ exists dp,
            piece_at s new_row new_col = Some dp /\ color dp = color pp)).
Proof.
  split; [intros; by rewrite is_valid_move_run|].
  intros s piece pp new_row new_col Hwf Hpp. eexists. split.
  { rewrite is_valid_move_run, (wf_valid_move_result _ _ pp) by done.
    reflexivity. }
  destruct (bool_decide_reflect (0 <= new_row < 8 /\ 0 <= new_col < 8))
    as [Hin|Hout]; simpl.
  - destruct (piece_at s new_row new_col) as [dp|].
    + destruct (bool_decide_reflect (color dp = color pp)) as [Heq|Hne]; simpl.
      * split; split; try done; eauto.
        intros [_ Hno]. destruct Hno. eauto.
      * split; split; try done.
        -- intros [?|(dp' & [= <-] & ?)]; done.
        -- intros _. split; [done|]. intros (dp' & [= <-] & ?). done.
    + split; split; try done.
      * intros [?|(dp' & [=] & ?)]; done.
      * intros _. split; [done|]. intros (dp' & [=] & ?).
  - split; split; try done; eauto. intros [? _]. done.
Qed.

Lemma is_valid_move_spec_witness :
  exists b,
    is_valid_move 12%nat 5 4 fresh = (Return b, fresh) /\
    (b = false <->
     ~ (0 <= 5 < 8 /\ 0 <= 4 < 8) \/
     exists dp, piece_at fresh 5 4 = Some dp /\ color dp = WHITE) /\
    (b = true <->
     (0 <= 5 < 8 /\ 0 <= 4 < 8) /\
     ~ exists dp, piece_at fresh 5 4 = Some dp /\ color dp = WHITE).
Proof.
  apply (proj2 is_valid_move_spec fresh 12%nat
           (mkPiece PAWN WHITE 6 4 false "♙") 5 4).
  - apply wf_check_sound. vm_compute. reflexivity.
  - reflexivity.
Defined.

(** ** Glyphs *)

(** C8: the symbol of a constructed piece is the entry of the fixed
    table [symbols] for its color and type, whatever its coordinates,
    and the table gives distinct symbols to distinct pairs of color and
    type. *)
Theorem symbol_by_color_and_type :
  (forall t c r k,
     exists g, _get_symbol c t = Return g /\
               ChessPiece_init t c r k = Return (mkPiece t c r k false g)) /\
  (forall c1 t1 c2 t2 g,
     _get_symbol c1 t1 = Return g -> _get_symbol c2 t2 = Return g ->
     c1 = c2 /\ t1 = t2).
Proof.
  split.
  - intros t c r k. destruct c, t; eexists; split; reflexivity.
  - intros c1 t1 c2 t2 g H1 H2.
    destruct c1, t1; injection H1 as <-; destruct c2, t2;
      first [discriminate H2 | done].
Qed.

Lemma symbol_by_color_and_type_witness :
  BLACK = BLACK /\ QUEEN = QUEEN.
Proof.
  apply (proj2 symbol_by_color_and_type BLACK QUEEN BLACK QUEEN "♛");
    reflexivity.
Defined.

(** ** Subscription safety *)

(** C9, as stated, fails: the source read [board[from_row][from_col]]
    is not confined to [0 <= from_row < 8]: a negative index counts
    from the end of the list, so on the fresh board the move from
    [(-1, 0)] to [(5, 0)] raises nothing and moves the rook of
    [(7, 0)]. *)
Lemma negative_source_in_range :
  ~ (forall from_row from_col to_row to_col,
       (exists b s',
          move_piece from_row from_col to_row to_col fresh = (Return b, s')) ->
       0 <= from_row < 8 /\ 0 <= from_col < 8).
Proof.
  intros Honly.
  destruct (Honly (-1) 0 5 0) as [Hrow _]; [|lia].
  exists true, (move_piece (-1) 0 5 0 fresh).2. vm_compute. reflexivity.
Qed.

(** C9, amended: [move_piece] reads [board[from_row][from_col]] with no
    check of the source coordinates.  On a board as the program builds
    it, whatever integers the destination coordinates are, the call
    returns normally when [-8 <= from_row < 8] and [-8 <= from_col < 8]
    (so in particular when both lie in [0, 8)), and raises [IndexError]
    with the state untouched otherwise; the destination is never the
    cause of an [IndexError], since [is_valid_move] reads the target
    cell only after its bounds check. *)
Theorem move_piece_in_range s from_row from_col to_row to_col :
  wf s ->
  (-8 <= from_row < 8 /\ -8 <= from_col < 8 ->
   exists b s',
     move_piece from_row from_col to_row to_col s = (Return b, s')) /\
  (0 <= from_row < 8 /\ 0 <= from_col < 8 ->
   locate (board s) from_row from_col
     = Some (Z.to_nat from_row, Z.to_nat from_col) /\
   exists b s',
     move_piece from_row from_col to_row to_col s = (Return b, s')) /\
  (~ (-8 <= from_row < 8 /\ -8 <= from_col < 8) ->
   move_piece from_row from_col to_row to_col s = (Raise IndexError, s)) /\
  (forall piece, is_Some (pieces s !! piece) ->
     exists b, is_valid_move piece to_row to_col s = (Return b, s) /\
       (b = true -> 0 <= to_row < 8 /\ 0 <= to_col < 8)).
Proof.
  intros Hwf.
  assert (-8 <= from_row < 8 /\ -8 <= from_col < 8 ->
          exists b s',
            move_piece from_row from_col to_row to_col s = (Return b, s'))
    as Hok.
  { intros [Hr Hc].
    destruct (move_piece_cases s from_row from_col to_row to_col)
      as [e Hwhy| |]; [exfalso|eauto..].
    destruct Hwhy as [Hget|(piece & Hget & Hwhy)].
    - apply grid_getitem_Raise in Hget as [_ Hnone].
      destruct (wf_locate_Some s from_row from_col Hwf Hr Hc) as [? Hsome].
      congruence.
    - apply grid_getitem_Return in Hget as (x & y & _ & Hcell).
      destruct Hwf as (Hsize & Hshape & Hrefs).
      destruct (Hrefs _ _ _ Hcell) as [pp Hpp].
      destruct Hwhy as [[Hnone _]|Hvalid]; [congruence|].
      rewrite (wf_valid_move_result _ _ pp) in Hvalid; done. }
  split; [exact Hok|]. split; [|split].
  - intros [Hr Hc]. split; [by apply wf_locate_in_bounds|].
    apply Hok. lia.
  - intros Hout. rewrite move_piece_run.
    destruct (grid_getitem _ _ _) as [v|e] eqn:Hget.
    + apply grid_getitem_Return in Hget as (x & y & Hloc & _).
      rewrite wf_locate_None in Hloc; done.
    + by apply grid_getitem_Raise in Hget as [-> _].
  - intros piece [pp Hpp]. eexists. split.
    { rewrite is_valid_move_run, (wf_valid_move_result _ _ pp) by done.
      reflexivity. }
    intros [Hin%bool_decide_eq_true _]%andb_true_iff. done.
Qed.

Lemma move_piece_in_range_witness :
  (-8 <= -1 < 8 /\ -8 <= 0 < 8 ->
   exists b s', move_piece (-1) 0 (-3) 100 fresh = (Return b, s')) /\
  (0 <= -1 < 8 /\ 0 <= 0 < 8 ->
   locate (board fresh) (-1) 0 = Some (Z.to_nat (-1), Z.to_nat 0) /\
   exists b s', move_piece (-1) 0 (-3) 100 fresh = (Return b, s')) /\
  (~ (-8 <= -1 < 8 /\ -8 <= 0 < 8) ->
   move_piece (-1) 0 (-3) 100 fresh = (Raise IndexError, fresh)) /\
  (forall piece, is_Some (pieces fresh !! piece) ->
     exists b, is_valid_move piece (-3) 100 fresh = (Return b, fresh) /\
       (b = true -> 0 <= -3 < 8 /\ 0 <= 100 < 8)).
Proof.
  apply (move_piece_in_range fresh (-1) 0 (-3) 100).
  apply wf_check_sound. vm_compute. reflexivity.
Defined.

(** ** The null move *)

(** C10: on a board as the program builds it and for every cell
    [(r, c)] of the grid, [move_piece(r, c, r, c)] returns [False] and
    changes nothing: an empty cell fails the source check, and for a
    piece in the cell [is_valid_move] answers [False], the piece in the
    destination being the moving piece itself. *)
Theorem null_move_refused s r c :
  wf s -> 0 <= r < 8 -> 0 <= c < 8 ->
  move_piece r c r c s = (Return false, s) /\
  (piece_at s r c = None ->
   grid_getitem (board s) r c = Return None) /\
  (forall piece,
     grid_getitem (board s) r c = Return (Some piece) ->
     is_valid_move piece r c s = (Return false, s)).
Proof.
  intros Hwf Hr Hc. pose proof Hwf as (Hsize & Hshape & Hrefs).
  pose proof (wf_locate_in_bounds s r c Hwf Hr Hc) as Hloc.
  destruct (locate_is_cell _ _ _ _ _ Hloc) as [v Hcell].
  assert (grid_getitem (board s) r c = Return v) as Hget.
  { apply grid_getitem_Return. eauto. }
  assert (forall piece,
            grid_getitem (board s) r c = Return (Some piece) ->
            exists pp, pieces s !! piece = Some pp /\
                       valid_move_result s piece r c = Return false)
    as Hself.
  { intros piece Hpiece. rewrite Hget in Hpiece. injection Hpiece as ->.
    destruct (Hrefs _ _ _ Hcell) as [pp Hpp]. exists pp. split; [done|].
    rewrite (wf_valid_move_result _ _ pp) by done.
    assert (piece_at s r c = Some pp) as ->.
    { apply piece_at_Some. eauto. }
    rewrite (bool_decide_eq_true_2 (color pp = color pp)) by done.
    by rewrite andb_false_r. }
  repeat split.
  - rewrite move_piece_run.
    destruct (grid_getitem _ _ _) as [[piece|]|e] eqn:Hget'; try done.
    destruct (Hself piece eq_refl) as (pp & -> & ->).
    by destruct (bool_decide _).
  - unfold piece_at. rewrite Hget. destruct v as [piece|]; [|done].
    destruct (Hrefs _ _ _ Hcell) as [pp ->]. discriminate.
  - intros piece Hpiece. destruct (Hself piece Hpiece) as (pp & _ & Hres).
    by rewrite is_valid_move_run, Hres.
Qed.

Lemma null_move_refused_witness :
  move_piece 6 4 6 4 fresh = (Return false, fresh) /\
  (piece_at fresh 6 4 = None ->
   grid_getitem (board fresh) 6 4 = Return None) /\
  (forall piece,
     grid_getitem (board fresh) 6 4 = Return (Some piece) ->
     is_valid_move piece 6 4 fresh = (Return false, fresh)).
Proof.
  apply (null_move_refused fresh 6 4); [|lia..].
  apply wf_check_sound. vm_compute. reflexivity.
Defined.

(** * Further properties of the board *)

(** ** One call *)

Lemma grid_getitem_locate {A} (b : list (list A)) r c :
  grid_getitem b r c =
  match locate b r c with
  | Some (x, y) =>
      match cell b x y with
      | Some v => Return v
      | None => Raise IndexError
      end
  | None => Raise IndexError
  end.
Proof.
  destruct (grid_getitem b r c) as [v|e] eqn:Hget.
  - apply grid_getitem_Return in Hget as (x & y & -> & ->). done.
  - apply grid_getitem_Raise in Hget as [-> ->]. done.
Qed.

(** X1: a successful [move_piece] changes two cells and one object at
    most.  Every cell other than the source and the destination reads
    as before, every piece object other than the moved one is
    untouched, the moved one keeps its type, color and symbol, and the
    size, the shape of the grid and the number of objects stay the
    same. *)
Theorem move_piece_frame s from_row from_col to_row to_col s' :
  move_piece from_row from_col to_row to_col s = (Return true, s') ->
  (forall r c,
     locate (board s) r c <> locate (board s) from_row from_col ->
     locate (board s) r c <> locate (board s) to_row to_col ->
     grid_getitem (board s') r c = grid_getitem (board s) r c) /\
  (exists piece pp pp',
     grid_getitem (board s) from_row from_col = Return (Some piece) /\
     pieces s !! piece = Some pp /\ pieces s' !! piece = Some pp' /\
     identity_of pp' = identity_of pp /\
     forall q, q <> piece -> pieces s' !! q = pieces s !! q) /\
  size s' = size s /\
  length <$> board s' = length <$> board s /\
  length (pieces s') = length (pieces s).
Proof.
  destruct (move_piece_cases s from_row from_col to_row to_col)
    as [| |piece pp src dst capture s1 Hsrc Hcell Hpp Hturn Hvalid Hdst Hcap
         Hne [Hsz Hsh Hcells (pp0 & Hpp0 & Hpieces) Hflip _]];
    try discriminate.
  intros [= <-].
  apply valid_move_result_true in Hvalid as (_ & _ & _ & Hloc & _).
  rewrite <- Hdst in Hloc. simplify_eq.
  pose proof (lookup_lt_Some _ _ _ Hpp) as Hlt.
  repeat split; try done.
  - intros r c Hnsrc Hndst. rewrite !grid_getitem_locate.
    rewrite (locate_shape (board s) (board s1)) by done.
    destruct (locate (board s) r c) as [[x y]|] eqn:Hrc; [|done].
    rewrite Hcells. rewrite Hsrc in Hnsrc. rewrite Hloc in Hndst.
    rewrite !decide_False by congruence. done.
  - exists piece, pp. eexists. split.
    { apply grid_getitem_Return. destruct src. eauto. }
    split; [done|]. split.
    { rewrite Hpieces. by apply list_lookup_insert_eq. }
    split; [done|].
    intros q Hq. rewrite Hpieces. by apply list_lookup_insert_ne.
  - rewrite Hpieces. apply length_insert.
Qed.

Lemma move_piece_frame_witness :
  (forall r c,
     locate (board fresh) r c <> locate (board fresh) 6 4 ->
     locate (board fresh) r c <> locate (board fresh) 1 4 ->
     grid_getitem (board (move_piece 6 4 1 4 fresh).2) r c
       = grid_getitem (board fresh) r c) /\
  (exists piece pp pp',
     grid_getitem (board fresh) 6 4 = Return (Some piece) /\
     pieces fresh !! piece = Some pp /\
     pieces (move_piece 6 4 1 4 fresh).2 !! piece = Some pp' /\
     identity_of pp' = identity_of pp /\
     forall q, q <> piece ->
       pieces (move_piece 6 4 1 4 fresh).2 !! q = pieces fresh !! q) /\
  size (move_piece 6 4 1 4 fresh).2 = size fresh /\
  length <$> board (move_piece 6 4 1 4 fresh).2 = length <$> board fresh /\
  length (pieces (move_piece 6 4 1 4 fresh).2) = length (pieces fresh).
Proof.
  apply (move_piece_frame fresh 6 4 1 4). vm_compute. reflexivity.
Defined.

(** X2: the side that has just moved cannot move again: after a
    successful [move_piece], a call whose source cell holds a piece of
    the color that was to move before is refused, whatever its
    destination, and changes nothing. *)
Theorem same_side_cannot_move_twice s a b c d s' :
  move_piece a b c d s = (Return true, s') ->
  forall from_row from_col to_row to_col pp,
    piece_at s' from_row from_col = Some pp ->
    color pp = current_turn s ->
    move_piece from_row from_col to_row to_col s' = (Return false, s').
Proof.
  destruct (move_piece_cases s a b c d)
    as [| |piece pp0 src dst capture s1 _ _ _ _ _ _ _ _ [_ _ _ _ Hflip _]];
    try discriminate.
  intros [= <-] from_row from_col to_row to_col pp
    (p & Hget & Hpp)%piece_at_Some Hcolor.
  rewrite move_piece_run, Hget, Hpp.
  rewrite bool_decide_eq_true_2; [done|].
  rewrite Hflip, Hcolor. by destruct (current_turn s).
Qed.

Lemma same_side_cannot_move_twice_witness :
  move_piece 4 4 3 4 (move_piece 6 4 4 4 fresh).2
  = (Return false, (move_piece 6 4 4 4 fresh).2).
Proof.
  apply (same_side_cannot_move_twice fresh 6 4 4 4 _ eq_refl 4 4 3 4
           (mkPiece PAWN WHITE 4 4 true "♙")); reflexivity.
Defined.

(** ** Sequences of calls *)

Lemma evolves_reachable s s' : reachable s -> evolves s s' -> reachable s'.
Proof. induction 2; [done|]. by apply reachable_move. Qed.

Lemma reachable_evolves s : reachable s <-> evolves fresh s.
Proof.
  split.
  - induction 1; [apply evolves_refl|by apply evolves_step].
  - apply evolves_reachable, reachable_fresh.
Qed.

Lemma step_identity s from_row from_col to_row to_col p pp :
  pieces s !! p = Some pp ->
  exists pp',
    pieces (move_piece from_row from_col to_row to_col s).2 !! p = Some pp' /\
    identity_of pp' = identity_of pp /\
    (has_moved pp = true -> has_moved pp' = true).
Proof.
  intros Hpp.
  destruct (move_piece_cases s from_row from_col to_row to_col)
    as [| |piece pp0 ? ? ? s1 _ _ _ _ _ _ _ _
         [_ _ _ (pp1 & Hpp1 & Hpieces) _ _]]; try by eauto.
  simpl. rewrite Hpieces.
  destruct (decide (p = piece)) as [->|Hne].
  - eexists. split.
    { apply list_lookup_insert_eq. by eapply lookup_lt_Some. }
    pose proof (eq_trans (eq_sym Hpp1) Hpp) as [= ->]. done.
  - exists pp. by rewrite list_lookup_insert_ne.
Qed.

Lemma step_on_board s from_row from_col to_row to_col p :
  on_board (move_piece from_row from_col to_row to_col s).2 p -> on_board s p.
Proof.
  destruct (move_piece_cases s from_row from_col to_row to_col)
    as [| |piece pp0 [i j] dst ? s1 _ Hcell _ _ _ _ _ _ [_ _ Hcells _ _ _]];
    try done.
  simpl. intros (x & y & Hp). rewrite Hcells in Hp.
  destruct (decide ((x, y) = (i, j))); [discriminate|].
  destruct (decide ((x, y) = dst)).
  - injection Hp as <-. by exists i, j.
  - by exists x, y.
Qed.

(** X3: the move log only grows, and only at its end: whatever calls
    of [move_piece] are made, the log before them is a prefix of the
    log after them. *)
Theorem move_history_append_only s s' :
  evolves s s' -> move_history s `prefix_of` move_history s'.
Proof.
  induction 1 as [|s' fr fc tr tc _ IH]; [done|].
  etrans; [exact IH|].
  destruct (move_piece_cases s' fr fc tr tc)
    as [| |? ? ? ? ? ? _ _ _ _ _ _ _ _ [_ _ _ _ _ Hhist]]; try done.
  simpl. rewrite Hhist. by apply prefix_app_r.
Qed.

Lemma move_history_append_only_witness :
  move_history fresh
    `prefix_of`
  move_history (move_piece 1 4 3 4 (move_piece 6 4 4 4 fresh).2).2.
Proof.
  apply move_history_append_only.
  apply evolves_step, evolves_step, evolves_refl.
Defined.

(** X4: piece objects are never created, dropped or changed in their
    identity by [move_piece]: over any sequence of calls the number of
    objects stays the same, every object keeps its type, color and
    symbol, and a [has_moved] flag that is set stays set. *)
Theorem pieces_keep_identity s s' :
  evolves s s' ->
  length (pieces s') = length (pieces s) /\
  forall p pp, pieces s !! p = Some pp ->
    exists pp', pieces s' !! p = Some pp' /\
                identity_of pp' = identity_of pp /\
                (has_moved pp = true -> has_moved pp' = true).
Proof.
  induction 1 as [|s' fr fc tr tc _ [IHlen IH]]; [by eauto|].
  destruct (move_piece_cases s' fr fc tr tc)
    as [| |piece pp0 ? ? ? s1 _ _ _ _ _ _ _ _ [_ _ _ (pp1 & Hpp1 & Hpieces) _ _]];
    try done.
  simpl. rewrite Hpieces, length_insert. split; [done|].
  intros p pp Hpp. destruct (IH p pp Hpp) as (pp' & Hpp' & Hid & Hmoved).
  destruct (decide (p = piece)) as [->|Hne].
  - eexists. split.
    { apply list_lookup_insert_eq. by eapply lookup_lt_Some. }
    pose proof (eq_trans (eq_sym Hpp1) Hpp') as [= ->].
    split; [exact Hid|done].
  - exists pp'. by rewrite list_lookup_insert_ne.
Qed.

Lemma pieces_keep_identity_witness :
  length (pieces (move_piece 6 4 1 4 fresh).2) = length (pieces fresh) /\
  forall p pp, pieces fresh !! p = Some pp ->
    exists pp', pieces (move_piece 6 4 1 4 fresh).2 !! p = Some pp' /\
                identity_of pp' = identity_of pp /\
                (has_moved pp = true -> has_moved pp' = true).
Proof.
  apply pieces_keep_identity. apply evolves_step, evolves_refl.
Defined.

(** X5: no piece ever enters the board: a piece that is in some cell
    after a sequence of calls of [move_piece] was in some cell before
    it.  In particular a piece that has left the grid stays out. *)
Theorem on_board_only_shrinks s s' p :
  evolves s s' -> on_board s' p -> on_board s p.
Proof.
  induction 1 as [|s' fr fc tr tc _ IH]; [done|].
  intros Hp. by apply IH, (step_on_board s' fr fc tr tc).
Qed.

Lemma on_board_only_shrinks_witness :
  on_board fresh 12%nat.
Proof.
  apply (on_board_only_shrinks fresh (move_piece 6 4 1 4 fresh).2).
  - apply evolves_step, evolves_refl.
  - exists 1%nat, 4%nat. vm_compute. reflexivity.
Defined.

(** X6: on every board the program can hold, the side to move is read
    off the length of the move log: white after an even number of
    successful moves, black after an odd number. *)
Theorem turn_is_log_parity s :
  reachable s ->
  current_turn s = if Nat.even (length (move_history s)) then WHITE else BLACK.
Proof.
  induction 1 as [|s fr fc tr tc _ IH]; [done|].
  destruct (move_piece_cases s fr fc tr tc)
    as [| |? ? ? ? ? ? _ _ _ _ _ _ _ _ [_ _ _ _ Hflip Hhist]]; try done.
  simpl. rewrite Hflip, Hhist, length_app, Nat.add_1_r, Nat.even_succ.
  rewrite <- Nat.negb_even, IH. by destruct (Nat.even _).
Qed.

Lemma turn_is_log_parity_witness :
  current_turn (move_piece 6 4 4 4 fresh).2 =
  if Nat.even (length (move_history (move_piece 6 4 4 4 fresh).2))
  then WHITE else BLACK.
Proof.
  apply turn_is_log_parity. apply reachable_move, reachable_fresh.
Defined.

Lemma fresh_none_moved :
  Forall (fun p => has_moved p = false) (pieces fresh).
Proof. unfold fresh, pieces. repeat constructor. Qed.

(** X7: on every board the program can hold, the pieces with
    [has_moved] set are exactly the pieces the move log names as
    moved. *)
Theorem has_moved_iff_logged s p pp :
  reachable s ->
  pieces s !! p = Some pp ->
  (has_moved pp = true <-> exists rec, rec ∈ move_history s /\ mv_piece rec = p).
Proof.
  intros Hreach. revert p pp.
  induction Hreach as [|s fr fc tr tc _ IH]; intros p pp.
  - intros Hpp. split.
    + pose proof (Forall_lookup_1 _ _ _ _ fresh_none_moved Hpp) as Hf.
      simpl in Hf. congruence.
    + intros (rec & Hrec & _). by apply elem_of_nil in Hrec.
  - destruct (move_piece_cases s fr fc tr tc)
      as [| |piece pp0 ? ? ? s1 _ _ _ _ _ _ _ _
           [_ _ _ (pp1 & Hpp1 & Hpieces) _ Hhist]]; try apply IH.
    simpl. rewrite Hpieces, Hhist.
    destruct (decide (p = piece)) as [->|Hne].
    + rewrite list_lookup_insert_eq by (by eapply lookup_lt_Some).
      intros [= <-]. simpl. split; [|done]. intros _.
      eexists. split; [apply elem_of_app; right; apply list_elem_of_singleton;
                       reflexivity|done].
    + rewrite list_lookup_insert_ne by done. intros Hpp.
      rewrite (IH p pp Hpp). split.
      * intros (rec & Hrec & Hp). exists rec. split; [|done].
        apply elem_of_app. by left.
      * intros (rec & [Hrec|Hrec%list_elem_of_singleton]%elem_of_app & Hp).
        -- by exists rec.
        -- subst rec. simpl in Hp. congruence.
Qed.

Lemma has_moved_iff_logged_witness :
  has_moved (mkPiece PAWN WHITE 4 4 true "♙") = true <->
  exists rec,
    rec ∈ move_history (move_piece 6 4 4 4 fresh).2 /\ mv_piece rec = 12%nat.
Proof.
  apply (has_moved_iff_logged (move_piece 6 4 4 4 fresh).2 12%nat).
  - apply reachable_move, reachable_fresh.
  - reflexivity.
Defined.

(** X8: on every board the program can hold, each capture in the move
    log is final and was made across colors: the captured piece is in
    no cell of the grid, and it differs in color from the piece that
    captured it. *)
Theorem captures_are_final s rec q :
  reachable s ->
  rec ∈ move_history s ->
  mv_captured rec = Some q ->
  ~ on_board s q /\
  exists pp qq,
    pieces s !! mv_piece rec = Some pp /\ pieces s !! q = Some qq /\
    color pp <> color qq.
Proof.
  intros Hreach. revert rec q.
  induction Hreach as [|s fr fc tr tc Hreach IH]; intros rec q.
  { intros Hrec. by apply elem_of_nil in Hrec. }
  assert (forall rec q, rec ∈ move_history s -> mv_captured rec = Some q ->
            ~ on_board (move_piece fr fc tr tc s).2 q /\
            exists pp qq,
              pieces (move_piece fr fc tr tc s).2 !! mv_piece rec = Some pp /\
              pieces (move_piece fr fc tr tc s).2 !! q = Some qq /\
              color pp <> color qq) as Hold.
  { intros rec' q' Hrec Hq.
    destruct (IH rec' q' Hrec Hq) as (Hoff & pp & qq & Hpp & Hqq & Hne).
    split; [intros Hon; by apply Hoff, (step_on_board s fr fc tr tc)|].
    destruct (step_identity s fr fc tr tc _ _ Hpp) as (pp' & ? & [= _ Hc _] & _).
    destruct (step_identity s fr fc tr tc _ _ Hqq) as (qq' & ? & [= _ Hc' _] & _).
    exists pp', qq'. repeat split; try done. congruence. }
  pose proof (reachable_wf_invariant s Hreach) as [_ [Hinv _]].
  destruct (move_piece_cases s fr fc tr tc)
    as [| |piece pp [i j] dst capture s1 Hsrc Hcell Hpp Hturn Hvalid Hdst Hcap
         Hne [_ _ Hcells (pp1 & Hpp1 & Hpieces) _ Hhist]];
    try (by apply Hold).
  simpl in *. rewrite Hhist.
  intros [Hrec|Hrec%list_elem_of_singleton]%elem_of_app Hq;
    [by apply Hold|].
  subst rec. simpl in Hq. subst capture dst. simpl in Hcap.
  apply valid_move_result_true in Hvalid as (_ & _ & cap & _ & Hcap' & Hcolor).
  pose proof (eq_trans (eq_sym Hcap) Hcap') as [= <-].
  destruct (Hcolor q eq_refl) as (qq & pp' & Hqq & Hpp' & Hcne).
  assert (q <> piece) as Hqp.
  { intros ->.
    pose proof (positions_agree_unique _ _ _ _ _ _ Hinv Hcell Hcap).
    congruence. }
  split.
  - intros (x & y & Hon). rewrite Hcells in Hon.
    destruct (decide ((x, y) = (i, j))); [discriminate|].
    destruct (decide ((x, y) = (Z.to_nat tr, Z.to_nat tc))).
    + by injection Hon as ->.
    + pose proof (positions_agree_unique _ _ _ _ _ _ Hinv Hon Hcap).
      congruence.
  - simpl. rewrite Hpieces. eexists _, qq. split; [|split].
    + apply list_lookup_insert_eq. by eapply lookup_lt_Some.
    + by rewrite list_lookup_insert_ne.
    + simpl. pose proof (eq_trans (eq_sym Hpp1) Hpp') as [= ->]. congruence.
Qed.

Lemma captures_are_final_witness :
  ~ on_board (move_piece 6 4 1 4 fresh).2 28%nat /\
  exists pp qq,
    pieces (move_piece 6 4 1 4 fresh).2
      !! mv_piece (mkMove 12%nat (6, 4) (1, 4) (Some 28%nat)) = Some pp /\
    pieces (move_piece 6 4 1 4 fresh).2 !! 28%nat = Some qq /\
    color pp <> color qq.
Proof.
  apply (captures_are_final (move_piece 6 4 1 4 fresh).2
           (mkMove 12%nat (6, 4) (1, 4) (Some 28%nat)) 28%nat).
  - apply reachable_move, reachable_fresh.
  - apply list_elem_of_singleton. reflexivity.
  - reflexivity.
Defined.

(** ** Construction with any size *)

Lemma bind_Raise {A B} (m : M A) (k : A -> M B) s e s1 :
  m s = (Raise e, s1) -> bind m k s = (Raise e, s1).
Proof. unfold bind. by intros ->. Qed.

Lemma bind_assoc {A B C} (m : M A) (k : A -> M B) (k' : B -> M C) s :
  bind (bind m k) k' s = bind m (fun x => bind (k x) k') s.
Proof. unfold bind. by destruct (m s) as [[a|e] s1]. Qed.

Lemma ChessPiece_new_run t c r k s :
  exists g,
    _get_symbol c t = Return g /\
    ChessPiece_new t c r k s =
    (Return (length (pieces s)),
     with_pieces (pieces s ++ [mkPiece t c r k false g]) s).
Proof. destruct c, t; eexists; split; reflexivity. Qed.

Lemma square_locate n s r c :
  square n s -> 0 <= r < Z.of_nat n -> 0 <= c < Z.of_nat n ->
  locate (board s) r c = Some (Z.to_nat r, Z.to_nat c).
Proof.
  intros Hshape Hr Hc. unfold locate.
  assert (length (board s) = n) as ->.
  { rewrite <- (length_fmap length), Hshape. apply length_replicate. }
  destruct (norm_index n r) as [x|e] eqn:Hx;
    [|apply norm_index_Raise in Hx; lia].
  apply norm_index_Return in Hx as [[_ ->]|[? _]]; [|lia].
  assert (length <$> board s !! Z.to_nat r = Some n) as Hrow.
  { rewrite <- list_lookup_fmap, Hshape. apply lookup_replicate_2. lia. }
  destruct (board s !! Z.to_nat r) as [row|]; [|discriminate].
  injection Hrow as ->.
  destruct (norm_index n c) as [y|e] eqn:Hy;
    [|apply norm_index_Raise in Hy; lia].
  apply norm_index_Return in Hy as [[_ ->]|[? _]]; [done|lia].
Qed.

Lemma square_no_row_7 n s c :
  square n s -> (n < 8)%nat -> locate (board s) 7 c = None.
Proof.
  intros Hshape Hn. unfold locate.
  assert (length (board s) = n) as ->.
  { rewrite <- (length_fmap length), Hshape. apply length_replicate. }
  destruct (norm_index n 7) as [x|e] eqn:Hx; [|done].
  apply norm_index_Return in Hx. lia.
Qed.

(** One statement [self.board[r][k] = ChessPiece(t, c, r, k)] of
    [_setup_board], followed by the rest of the method. *)
Lemma place_then {A} n s t c r k (rest : M A) :
  square n s -> refs_valid s -> positions_agree s ->
  0 <= r < Z.of_nat n -> 0 <= k < Z.of_nat n ->
  exists s',
    bind (ChessPiece_new t c r k)
         (fun p => bind (board_setitem r k (Some p)) (fun _ => rest)) s
    = rest s' /\
    square n s' /\ refs_valid s' /\ positions_agree s' /\
    size s' = size s /\
    length (pieces s') = S (length (pieces s)).
Proof.
  intros Hshape Hrefs Hinv Hr Hk.
  destruct (ChessPiece_new_run t c r k s) as (g & _ & Hnew).
  pose proof (square_locate n s r k Hshape Hr Hk) as Hloc.
  destruct (grid_setitem_Return (board s) r k (Some (length (pieces s))) _ _
              Hloc) as (b' & Hset & Hshape' & Hcells).
  eexists. split.
  { erewrite bind_Return by exact Hnew.
    erewrite bind_Return by (apply board_setitem_run; exact Hset).
    reflexivity. }
  unfold square, refs_valid, positions_agree. simpl.
  split; [congruence|]. split; [|split; [|split]].
  - intros x y p. rewrite Hcells. case_decide.
    + intros [= <-]. apply lookup_lt_is_Some. rewrite length_app. simpl. lia.
    + intros Hp. apply lookup_lt_is_Some. rewrite length_app.
      apply Hrefs, lookup_lt_is_Some in Hp. lia.
  - intros x y p. rewrite Hcells. case_decide as Hxy.
    + intros [= <-]. injection Hxy as -> ->.
      eexists. split.
      { rewrite lookup_app_r by done. by rewrite Nat.sub_diag. }
      simpl. lia.
    + intros Hp. destruct (Hinv _ _ _ Hp) as (pp & Hpp & ?).
      exists pp. split; [|done]. by apply lookup_app_l_Some.
  - done.
  - rewrite length_app. simpl. lia.
Qed.

(** A loop [for col in ...: self.board[r][col] = ChessPiece(t, c, r, col)]. *)
Lemma place_row n t c r cols s :
  square n s -> refs_valid s -> positions_agree s ->
  0 <= r < Z.of_nat n ->
  Forall (fun k => 0 <= k < Z.of_nat n) cols ->
  exists s',
    for_each cols (fun col =>
      bind (ChessPiece_new t c r col)
           (fun p => board_setitem r col (Some p))) s
    = (Return tt, s') /\
    square n s' /\ refs_valid s' /\ positions_agree s' /\
    size s' = size s /\
    length (pieces s') = (length (pieces s) + length cols)%nat.
Proof.
  intros Hshape Hrefs Hinv Hr Hcols. revert s Hshape Hrefs Hinv.
  induction Hcols as [|k cols Hk Hcols IH]; intros s Hshape Hrefs Hinv.
  - exists s. simpl. rewrite Nat.add_0_r. done.
  - simpl. rewrite bind_assoc.
    destruct (place_then n s t c r k
                (for_each cols (fun col =>
                   bind (ChessPiece_new t c r col)
                        (fun p => board_setitem r col (Some p))))
                Hshape Hrefs Hinv Hr Hk)
      as (s1 & -> & Hshape1 & Hrefs1 & Hinv1 & Hsize1 & Hlen1).
    destruct (IH s1 Hshape1 Hrefs1 Hinv1)
      as (s2 & Hrun2 & Hshape2 & Hrefs2 & Hinv2 & Hsize2 & Hlen2).
    exists s2. repeat split; try done; [congruence|lia].
Qed.

Lemma board_setitem_Raise s r c v e :
  grid_setitem (board s) r c v = Raise e ->
  board_setitem r c v s = (Raise e, s).
Proof. cbv [board_setitem bind gets lift modify]. by intros ->. Qed.

Lemma range_in_bounds (n : Z) :
  Forall (fun k => 0 <= k < Z.of_nat (Z.to_nat n)) (range n).
Proof.
  apply Forall_forall. intros k Hk%elem_of_seqZ. lia.
Qed.

Lemma empty_grid_cell {A} (n : nat) x y (v : A) :
  cell (replicate n (replicate n (@None A))) x y <> Some (Some v).
Proof.
  unfold cell. destruct (replicate n _ !! x) as [row|] eqn:Hrow; [|done].
  apply lookup_replicate in Hrow as [-> _].
  intros [? _]%lookup_replicate. done.
Qed.

(** One placement of [_setup_board], or one read of [self.size]. *)
Ltac place_step :=
  match goal with
  | Hq : square ?m ?s, Hr : refs_valid ?s, Hi : positions_agree ?s,
    Hs : size ?s = _, Hl : length (pieces ?s) = _
    |- context [bind (ChessPiece_new ?t ?c ?r ?k) _ ?s] =>
      let s' := fresh "s" in
      let Hq' := fresh "Hsq" in let Hr' := fresh "Href" in
      let Hi' := fresh "Hinv" in let Hs' := fresh "Hsz" in
      let Hl' := fresh "Hlen" in
      edestruct (place_then (A:=unit) m s t c r k) as
        (s' & -> & Hq' & Hr' & Hi' & Hs' & Hl'); [done..|];
      rewrite Hs in Hs'; rewrite Hl in Hl'; clear Hq Hr Hi Hs Hl s
  | Hs : size ?s = _ |- context [bind (gets size) _ ?s] =>
      erewrite (bind_Return (gets size)) by reflexivity;
      rewrite Hs
  end.

(** One pawn loop of [_setup_board]. *)
Ltac row_step :=
  match goal with
  | Hq : square ?m ?s, Hr : refs_valid ?s, Hi : positions_agree ?s,
    Hs : size ?s = _, Hl : length (pieces ?s) = _
    |- context [for_each (range ?n)
                  (fun col => bind (ChessPiece_new ?t ?c ?r col) (@?g col))] =>
      let s' := fresh "s" in
      let Hrun := fresh "Hrun" in
      let Hq' := fresh "Hsq" in let Hr' := fresh "Href" in
      let Hi' := fresh "Hinv" in let Hs' := fresh "Hsz" in
      let Hl' := fresh "Hlen" in
      destruct (place_row m t c r (range n) s Hq Hr Hi ltac:(lia)
                  (range_in_bounds n))
        as (s' & Hrun & Hq' & Hr' & Hi' & Hs' & Hl');
      rewrite Hs in Hs'; rewrite Hl in Hl'; clear Hq Hr Hi Hs Hl
  end.

(** X9: [ChessBoard(size)] works for the sizes from 8 on, and only for
    them.  With [size < 8] (zero and negative sizes included) the first
    placement on row 7 raises [IndexError].  With [size >= 8] the
    constructor returns a board of that size with a [size] by [size]
    grid that satisfies the board invariant, with white to move, an
    empty move log, and [16 + 2 * size] new piece objects: the two pawn
    loops run over the whole width while the back ranks stay on
    columns 0 to 7. *)
Theorem ChessBoard_init_sizes n store :
  (n < 8 -> ChessBoard_init n store = Raise IndexError) /\
  (8 <= n ->
   exists b,
     ChessBoard_init n store = Return b /\
     size b = n /\
     square (Z.to_nat n) b /\
     refs_valid b /\
     board_invariant b /\
     length (pieces b) = (length store + 16 + 2 * Z.to_nat n)%nat /\
     current_turn b = WHITE /\
     move_history b = []).
Proof.
  unfold ChessBoard_init. cbv zeta.
  set (self := mkBoard store n _ WHITE []).
  assert (square (Z.to_nat n) self) as Hsq.
  { unfold square, self. simpl. rewrite fmap_replicate.
    by rewrite length_replicate. }
  assert (refs_valid self) as Href.
  { intros x y p Hp. by apply empty_grid_cell in Hp. }
  assert (positions_agree self) as Hinv.
  { intros x y p Hp. by apply empty_grid_cell in Hp. }
  split; intros Hn.
  - assert (_setup_board self
            = (Raise IndexError,
               (ChessPiece_new ROOK WHITE 7 0 self).2)) as ->; [|done].
    unfold _setup_board.
    erewrite bind_Return by reflexivity.
    erewrite bind_Raise; [reflexivity|].
    apply board_setitem_Raise, grid_setitem_Raise.
    apply (square_no_row_7 (Z.to_nat n)); [|lia]. exact Hsq.
  - unfold _setup_board.
    assert (0 <= 7 < Z.of_nat (Z.to_nat n)) as H7 by lia.
    assert (0 <= 6 < Z.of_nat (Z.to_nat n)) as H6 by lia.
    assert (0 <= 5 < Z.of_nat (Z.to_nat n)) as H5 by lia.
    assert (0 <= 4 < Z.of_nat (Z.to_nat n)) as H4 by lia.
    assert (0 <= 3 < Z.of_nat (Z.to_nat n)) as H3 by lia.
    assert (0 <= 2 < Z.of_nat (Z.to_nat n)) as H2 by lia.
    assert (0 <= 1 < Z.of_nat (Z.to_nat n)) as H1 by lia.
    assert (0 <= 0 < Z.of_nat (Z.to_nat n)) as H0 by lia.
    assert (size self = n) as Hsz by done.
    assert (length (pieces self) = length store) as Hlen by done.
    clearbody self.
    repeat place_step. row_step.
    erewrite (bind_Return (for_each _ _)) by eassumption.
    match goal with H : for_each _ _ _ = _ |- _ => clear H end.
    repeat place_step. row_step.
    match goal with H : for_each _ _ _ = _ |- _ => rewrite H end.
    eexists. split; [reflexivity|]. simpl.
    repeat split; try done; try (by apply positions_agree_invariant).
    match goal with H : length _ = _ |- _ => rewrite H end.
    unfold range. rewrite !length_seqZ. lia.
Qed.

Lemma ChessBoard_init_sizes_witness :
  ChessBoard_init 7 [] = Raise IndexError /\
  exists b,
    ChessBoard_init 9 [] = Return b /\
    size b = 9 /\
    square (Z.to_nat 9) b /\
    refs_valid b /\
    board_invariant b /\
    length (pieces b) = (length (@nil ChessPiece) + 16 + 2 * Z.to_nat 9)%nat /\
    current_turn b = WHITE /\
    move_history b = [].
Proof.
  split.
  - apply (proj1 (ChessBoard_init_sizes 7 [])). lia.
  - apply (proj2 (ChessBoard_init_sizes 9 [])). lia.
Defined.

(** * Properties of the window *)

Section AppProperties.
Context {C Item : Type} `{!Canvas C Item} `{!Builtins}.
Implicit Types (app : @ChessApp C Item) (event : Event).

Lemma app_bind_Return {A B} (m : AppM A) (k : A -> AppM B) app a app1 :
  m app = (Return a, app1) -> app_bind m k app = k a app1.
Proof. unfold app_bind. by intros ->. Qed.

Lemma on_chess_board_run {A} (m : M A) app o b :
  m (chess_board app) = (o, b) ->
  on_chess_board m app = (o, with_chess_board b app).
Proof. unfold on_chess_board. by intros ->. Qed.

Lemma with_chess_board_id app : with_chess_board (chess_board app) app = app.
Proof. by destruct app. Qed.

Lemma pixel_square event :
  (0 <= ev_x event < 640 /\ 0 <= ev_y event < 640) <->
  (0 <= (square_of event).1 < 8 /\ 0 <= (square_of event).2 < 8).
Proof.
  unfold square_of, SQUARE_SIZE. simpl.
  pose proof (Z.div_mod (ev_x event) 80).
  pose proof (Z.mod_pos_bound (ev_x event) 80).
  pose proof (Z.div_mod (ev_y event) 80).
  pose proof (Z.mod_pos_bound (ev_y event) 80).
  lia.
Qed.

Lemma click_off_board_run app event :
  ~ (0 <= ev_x event < 640 /\ 0 <= ev_y event < 640) ->
  on_square_click event app = (Return tt, app).
Proof.
  rewrite pixel_square. unfold square_of, on_square_click, BOARD_SIZE.
  cbv zeta. simpl.
  intros Hout.
  destruct (Z.leb_spec 0 (ev_y event `div` SQUARE_SIZE));
    destruct (Z.ltb_spec (ev_y event `div` SQUARE_SIZE) 8);
    destruct (Z.leb_spec 0 (ev_x event `div` SQUARE_SIZE));
    destruct (Z.ltb_spec (ev_x event `div` SQUARE_SIZE) 8);
    simpl; try reflexivity.
  lia.
Qed.

(** ** Redrawing *)

Lemma dict_setitem_keys {K V} `{EqDecision K} (d : list (K * V)) k v k0 :
  k0 ∈ (dict_setitem d k v).*1 <-> k0 = k \/ k0 ∈ d.*1.
Proof.
  induction d as [|[k' v'] d IH]; simpl.
  - rewrite list_elem_of_singleton, elem_of_nil. tauto.
  - case_decide as Hk; simpl; rewrite !elem_of_cons; [|rewrite IH].
    + subst k'. tauto.
    + tauto.
Qed.

Lemma app_for_each_inv {A} (P : list A -> @ChessApp C Item -> Prop)
    (xs : list A) (body : A -> AppM unit) pre app :
  P pre app ->
  (forall pre' x app1, x ∈ xs -> P pre' app1 ->
     exists app2, body x app1 = (Return tt, app2) /\ P (pre' ++ [x]) app2) ->
  exists app',
    app_for_each xs body app = (Return tt, app') /\ P (pre ++ xs) app'.
Proof.
  revert pre app. induction xs as [|x xs IH]; intros pre app Hpre Hbody.
  - exists app. by rewrite app_nil_r.
  - destruct (Hbody pre x app) as (app1 & Hrun & Hpre1);
      [apply elem_of_cons; by left|done|].
    destruct (IH (pre ++ [x]) app1 Hpre1) as (app2 & Hrun2 & Hpre2).
    { intros pre' x' app' Hx'. apply Hbody, elem_of_cons. by right. }
    exists app2. simpl. erewrite app_bind_Return by exact Hrun.
    by rewrite <- app_assoc in Hpre2.
Qed.

Lemma delete_all_run (items : list Item) app :
  exists app',
    app_for_each items (fun piece =>
      app_modify (fun s => with_canvas (canvas_delete piece (canvas s)) s))
      app
    = (Return tt, app') /\
    same_model app app' /\ drawn_pieces app' = drawn_pieces app.
Proof.
  revert app. induction items as [|item items IH]; intros app.
  - by exists app.
  - simpl. unfold app_bind at 1, app_modify at 1.
    destruct (IH (with_canvas (canvas_delete item (canvas app)) app))
      as (app' & -> & (? & ? & ?) & ?).
    by exists app'.
Qed.

(** One cell of the double loop of [_draw_pieces]. *)
Lemma draw_cell_run app r c :
  wf (chess_board app) -> 0 <= r < 8 -> 0 <= c < 8 ->
  exists app',
    (app_bind (on_chess_board (board_getitem r c)) (fun piece =>
       match piece with
       | None => app_ret tt
       | Some piece =>
           let x := c * SQUARE_SIZE + SQUARE_SIZE `div` 2 in
           let y := r * SQUARE_SIZE + SQUARE_SIZE `div` 2 in
           app_bind (on_chess_board (getattr piece symbol)) (fun text =>
           app_bind (on_chess_board (getattr piece color)) (fun piece_color =>
           app_bind
             (on_canvas (canvas_create_text x y text ("Arial", 36)
                           (Some (if bool_decide (piece_color = WHITE)
                                  then "black" else "darkgray"))))
             (fun piece_text =>
           app_modify (fun s =>
             with_drawn_pieces
               (dict_setitem (drawn_pieces s) (r, c) piece_text) s))))
       end)) app
    = (Return tt, app') /\
    same_model app app' /\
    forall k, k ∈ (drawn_pieces app').*1 <->
      k ∈ (drawn_pieces app).*1 \/
      k = (r, c) /\ occupied (chess_board app) r c.
Proof.
  intros Hwf Hr Hc. pose proof Hwf as (_ & _ & Hrefs).
  pose proof (wf_locate_in_bounds _ r c Hwf Hr Hc) as Hloc.
  destruct (locate_is_cell _ _ _ _ _ Hloc) as [v Hcell].
  assert (grid_getitem (board (chess_board app)) r c = Return v) as Hget.
  { apply grid_getitem_Return. eauto. }
  erewrite app_bind_Return.
  2:{ apply on_chess_board_run. rewrite board_getitem_run, Hget. reflexivity. }
  rewrite with_chess_board_id. unfold occupied. rewrite Hget.
  destruct v as [p|].
  - destruct (Hrefs _ _ _ Hcell) as [pp Hpp]. cbv zeta.
    erewrite app_bind_Return.
    2:{ apply on_chess_board_run. unfold getattr. rewrite Hpp. reflexivity. }
    rewrite with_chess_board_id.
    erewrite app_bind_Return.
    2:{ apply on_chess_board_run. unfold getattr. rewrite Hpp. reflexivity. }
    rewrite with_chess_board_id.
    unfold app_bind, on_canvas, app_modify.
    destruct (canvas_create_text _ _ _ _ _ _) as [item c'].
    eexists. split; [reflexivity|]. split; [done|].
    intros k. simpl. rewrite dict_setitem_keys. split.
    + intros [->|?]; [right|by left]. split; [done|]. by exists p.
    + intros [?|[-> _]]; [by right|by left].
  - exists app. split; [done|]. split; [done|].
    intros k. split; [by left|]. intros [?|[_ [p [=]]]]. done.
Qed.

Lemma draw_pieces_run app :
  wf (chess_board app) ->
  exists app',
    _draw_pieces app = (Return tt, app') /\
    chess_board app' = chess_board app /\
    selected_piece app' = selected_piece app /\
    status_label app' = status_label app /\
    drawn_ok app'.
Proof.
  intros Hwf. unfold _draw_pieces.
  erewrite app_bind_Return by reflexivity.
  destruct (delete_all_run (dict_values (drawn_pieces app)) app)
    as (app1 & Hdel & (Hb1 & Hsel1 & Hlab1) & _).
  erewrite app_bind_Return by exact Hdel.
  erewrite app_bind_Return by reflexivity.
  set (app2 := with_drawn_pieces [] app1).
  set (b := chess_board app).
  destruct (app_for_each_inv
    (fun rows app' =>
       same_model app2 app' /\
       forall k, k ∈ (drawn_pieces app').*1 <->
         exists r c, r ∈ rows /\ c ∈ range BOARD_SIZE /\ k = (r, c) /\
                     occupied b r c)
    (range BOARD_SIZE)
    (fun row =>
       app_for_each (range BOARD_SIZE) (fun col =>
         app_bind (on_chess_board (board_getitem row col)) (fun piece =>
           match piece with
           | None => app_ret tt
           | Some piece =>
               let x := col * SQUARE_SIZE + SQUARE_SIZE `div` 2 in
               let y := row * SQUARE_SIZE + SQUARE_SIZE `div` 2 in
               app_bind (on_chess_board (getattr piece symbol)) (fun text =>
               app_bind (on_chess_board (getattr piece color))
                 (fun piece_color =>
               app_bind
                 (on_canvas (canvas_create_text x y text ("Arial", 36)
                               (Some (if bool_decide (piece_color = WHITE)
                                      then "black" else "darkgray"))))
                 (fun piece_text =>
               app_modify (fun s =>
                 with_drawn_pieces
                   (dict_setitem (drawn_pieces s) (row, col) piece_text)
                   s))))
           end)))
    [] app2) as (app3 & Hrun & (Hb3 & Hsel3 & Hlab3) & Hkeys).
  - split; [done|]. intros k. simpl. split; [by intros ?%elem_of_nil|].
    intros (r & c & ?%elem_of_nil & _). done.
  - intros rows r app' Hr%elem_of_seqZ [(Hb' & Hsel' & Hlab') Hkeys'].
    cbv beta.
    match goal with
    | |- exists _, app_for_each _ ?body _ = _ /\ _ =>
        destruct (app_for_each_inv
          (fun cols app'' =>
             same_model app2 app'' /\
             forall k, k ∈ (drawn_pieces app'').*1 <->
               k ∈ (drawn_pieces app').*1 \/
               exists c, c ∈ cols /\ k = (r, c) /\ occupied b r c)
          (range BOARD_SIZE) body [] app')
          as (app'' & Hrun' & Hmodel'' & Hkeys'')
    end.
    + split; [done|]. intros k. split; [by left|].
      intros [?|(c & ?%elem_of_nil & _)]; done.
    + intros cols c app1' Hc%elem_of_seqZ [(Hb1' & Hsel1' & Hlab1') Hkeys1'].
      destruct (draw_cell_run app1' r c) as (app2' & Hcell & (? & ? & ?) & Hk);
        [unfold app2 in Hb1'; simpl in Hb1'; congruence
        |unfold BOARD_SIZE in *; lia..|].
      exists app2'. split; [exact Hcell|]. split.
      { repeat split; congruence. }
      intros k. rewrite Hk, Hkeys1'.
      assert (chess_board app1' = b) as ->.
      { unfold app2 in Hb1'. simpl in Hb1'. unfold b. congruence. }
      split.
      * intros [[?|(c' & ? & ? & ?)]|[-> ?]]; [by left|right..].
        -- exists c'. split; [|done]. apply elem_of_app. by left.
        -- exists c. split; [|done]. apply elem_of_app. right.
           by apply list_elem_of_singleton.
      * intros [?|(c' & [?|Hc'%list_elem_of_singleton]%elem_of_app & ? & ?)].
        -- left. by left.
        -- left. right. by exists c'.
        -- subst c'. by right.
    + exists app''. split; [exact Hrun'|]. split; [done|].
      intros k. rewrite Hkeys'', Hkeys'. simpl. split.
      * intros [(r' & c & ? & ? & ? & ?)|(c & ? & ? & ?)].
        -- exists r', c. split; [|done]. apply elem_of_app. by left.
        -- exists r, c. split; [|done]. apply elem_of_app. right.
           by apply list_elem_of_singleton.
      * intros (r' & c & [?|Hr'%list_elem_of_singleton]%elem_of_app & ? & ? & ?).
        -- left. by exists r', c.
        -- subst r'. right. by exists c.
  - exists app3. split; [exact Hrun|].
    unfold app2 in Hb3, Hsel3, Hlab3. simpl in Hb3, Hsel3, Hlab3.
    subst b.
    split; [congruence|]. split; [congruence|]. split; [congruence|].
    intros k. rewrite Hkeys. rewrite Hb3, Hb1. split.
    + intros (r & c & Hr%elem_of_seqZ & Hc%elem_of_seqZ & ? & ?).
      exists r, c. unfold BOARD_SIZE in *. repeat split; (done || lia).
    + intros (r & c & Hr & Hc & ? & ?). exists r, c.
      repeat split; try done; apply elem_of_seqZ; unfold BOARD_SIZE; lia.
Qed.

(** ** Clicks *)

Lemma wf_move_piece_returns s from_row from_col to_row to_col :
  wf s -> 0 <= from_row < 8 -> 0 <= from_col < 8 ->
  exists ok s', move_piece from_row from_col to_row to_col s = (Return ok, s').
Proof.
  intros Hwf Hr Hc.
  destruct (move_piece_cases s from_row from_col to_row to_col)
    as [e Hwhy| |]; [exfalso|eauto..].
  destruct Hwhy as [Hget|(piece & Hget & Hwhy)].
  - apply grid_getitem_Raise in Hget as [_ Hnone].
    rewrite wf_locate_in_bounds in Hnone by done. discriminate.
  - apply grid_getitem_Return in Hget as (x & y & _ & Hcell).
    destruct Hwf as (Hsize & Hshape & Hrefs).
    destruct (Hrefs _ _ _ Hcell) as [pp Hpp].
    destruct Hwhy as [[Hnone _]|Hvalid]; [congruence|].
    rewrite (wf_valid_move_result _ _ pp) in Hvalid; done.
Qed.

Lemma wf_cell_in_grid s x y (v : option ref) :
  wf s -> cell (board s) x y = Some v -> (x < 8)%nat /\ (y < 8)%nat.
Proof.
  intros (_ & Hshape & _). unfold cell.
  destruct (board s !! x) as [row|] eqn:Hrow; [|discriminate].
  intros Hy%lookup_lt_Some.
  assert (length <$> board s !! x = Some (length row)) as Hlen
    by (by rewrite Hrow).
  rewrite <- list_lookup_fmap, Hshape in Hlen.
  apply lookup_replicate in Hlen as [Hlen ?]. lia.
Qed.

Lemma wf_grid_getitem s r c :
  wf s -> 0 <= r < 8 -> 0 <= c < 8 ->
  exists v, grid_getitem (board s) r c = Return v /\
            cell (board s) (Z.to_nat r) (Z.to_nat c) = Some v.
Proof.
  intros Hwf Hr Hc.
  pose proof (wf_locate_in_bounds _ r c Hwf Hr Hc) as Hloc.
  destruct (locate_is_cell _ _ _ _ _ Hloc) as [v Hcell].
  exists v. split; [|done]. apply grid_getitem_Return. eauto.
Qed.

Lemma click_in_bounds_run app event :
  0 <= (square_of event).1 < 8 -> 0 <= (square_of event).2 < 8 ->
  on_square_click event app =
  (app_bind
     (on_chess_board
        (board_getitem (square_of event).1 (square_of event).2))
     (fun clicked_piece =>
  app_bind (app_gets selected_piece) (fun selected =>
  match selected with
  | Some selected =>
      app_bind (on_chess_board (getattr selected row)) (fun from_row =>
      app_bind (on_chess_board (getattr selected col)) (fun from_col =>
      app_bind
        (on_chess_board
           (move_piece from_row from_col
              (square_of event).1 (square_of event).2))
        (fun success =>
      app_bind
        (if success : bool
         then
           app_bind _draw_pieces (fun _ =>
           app_bind (on_chess_board (gets current_turn)) (fun turn =>
           app_modify
             (with_status_label
                (if bool_decide (turn = WHITE) then "White's Turn"
                 else "Black's Turn"))))
         else app_ret tt)
        (fun _ => app_modify (with_selected_piece None)))))
  | None =>
      match clicked_piece with
      | Some clicked_piece =>
          app_bind (on_chess_board (getattr clicked_piece color))
            (fun clicked_color =>
          app_bind (on_chess_board (gets current_turn)) (fun turn =>
          if bool_decide (clicked_color = turn)
          then app_modify (with_selected_piece (Some clicked_piece))
          else app_ret tt))
      | None => app_ret tt
      end
  end))) app.
Proof.
  unfold square_of, on_square_click, BOARD_SIZE. simpl. intros Hr Hc.
  destruct (Z.leb_spec 0 (ev_y event `div` SQUARE_SIZE)); [|lia].
  destruct (Z.ltb_spec (ev_y event `div` SQUARE_SIZE) 8); [|lia].
  destruct (Z.leb_spec 0 (ev_x event `div` SQUARE_SIZE)); [|lia].
  destruct (Z.ltb_spec (ev_x event `div` SQUARE_SIZE) 8); [|lia].
  reflexivity.
Qed.

(** A click on the board while no piece is selected. *)
Lemma click_unselected_run app event :
  wf (chess_board app) ->
  selected_piece app = None ->
  0 <= (square_of event).1 < 8 -> 0 <= (square_of event).2 < 8 ->
  exists v,
    grid_getitem (board (chess_board app))
      (square_of event).1 (square_of event).2 = Return v /\
    match v with
    | None => on_square_click event app = (Return tt, app)
    | Some p =>
        exists pp,
          pieces (chess_board app) !! p = Some pp /\
          on_board (chess_board app) p /\
          on_square_click event app =
          (Return tt,
           if bool_decide (color pp = current_turn (chess_board app))
           then with_selected_piece (Some p) app else app)
    end.
Proof.
  intros Hwf Hsel Hr Hc. rewrite click_in_bounds_run by done.
  destruct (wf_grid_getitem _ _ _ Hwf Hr Hc) as (v & Hget & Hcell).
  exists v. split; [done|].
  erewrite app_bind_Return.
  2:{ apply on_chess_board_run. rewrite board_getitem_run, Hget. reflexivity. }
  rewrite with_chess_board_id.
  erewrite app_bind_Return by reflexivity. rewrite Hsel.
  destruct v as [p|]; [|done].
  destruct Hwf as (_ & _ & Hrefs). destruct (Hrefs _ _ _ Hcell) as [pp Hpp].
  exists pp. split; [done|]. split; [by eexists _, _|].
  erewrite app_bind_Return.
  2:{ apply on_chess_board_run. unfold getattr. rewrite Hpp. reflexivity. }
  rewrite with_chess_board_id.
  erewrite app_bind_Return by (by apply on_chess_board_run).
  rewrite with_chess_board_id.
  by destruct (bool_decide _).
Qed.

(** A click on the board while a piece is selected. *)
Lemma click_selected_run app event sel :
  app_ok app ->
  selected_piece app = Some sel ->
  0 <= (square_of event).1 < 8 -> 0 <= (square_of event).2 < 8 ->
  exists x y ok app',
    cell (board (chess_board app)) x y = Some (Some sel) /\
    move_piece (Z.of_nat x) (Z.of_nat y)
      (square_of event).1 (square_of event).2 (chess_board app)
    = (Return ok, chess_board app') /\
    on_square_click event app = (Return tt, app') /\
    selected_piece app' = None /\
    (ok = false -> app' = with_selected_piece None app) /\
    app_ok app'.
Proof.
  intros (Hwf & Hinv & Hselok & Hlabel & Hdrawn) Hsel Hr Hc.
  destruct (Hselok sel Hsel) as ((x & y & Hcell) & pp & Hpp & Hturn).
  destruct (proj1 Hinv _ _ _ Hcell) as (pp' & Hpp' & Hrow & Hcol).
  pose proof (eq_trans (eq_sym Hpp) Hpp') as [= <-].
  destruct (wf_cell_in_grid _ _ _ _ Hwf Hcell) as [Hx Hy].
  destruct (wf_move_piece_returns (chess_board app)
              (Z.of_nat x) (Z.of_nat y)
              (square_of event).1 (square_of event).2 Hwf)
    as (ok & b' & Hmove); [lia..|].
  pose proof (move_piece_preserves (chess_board app)
                (Z.of_nat x) (Z.of_nat y)
                (square_of event).1 (square_of event).2 (conj Hwf Hinv))
    as [Hwf' Hinv'].
  rewrite Hmove in Hwf', Hinv'. simpl in Hwf', Hinv'.
  destruct (wf_grid_getitem _ _ _ Hwf Hr Hc) as (v & Hget & _).
  assert (exists app',
    on_square_click event app = (Return tt, app') /\
    chess_board app' = b' /\ selected_piece app' = None /\
    (ok = false -> app' = with_selected_piece None app) /\
    status_label app' = turn_text (current_turn b') /\
    drawn_ok app') as (app' & Hrun & Hb' & Hnone & Hfalse & Hlab' & Hdrawn').
  { rewrite click_in_bounds_run by done.
    erewrite app_bind_Return.
    2:{ apply on_chess_board_run. rewrite board_getitem_run, Hget.
        reflexivity. }
    rewrite with_chess_board_id.
    erewrite app_bind_Return by reflexivity. rewrite Hsel.
    erewrite app_bind_Return.
    2:{ apply on_chess_board_run. unfold getattr. rewrite Hpp. reflexivity. }
    rewrite with_chess_board_id.
    erewrite app_bind_Return.
    2:{ apply on_chess_board_run. unfold getattr. rewrite Hpp. reflexivity. }
    rewrite with_chess_board_id. rewrite Hrow, Hcol.
    erewrite app_bind_Return by (apply on_chess_board_run; exact Hmove).
    destruct ok.
    - destruct (draw_pieces_run (with_chess_board b' app) Hwf')
        as (app2 & Hdraw & Hb2 & Hsel2 & Hlab2 & Hdrawn2).
      erewrite app_bind_Return.
      2:{ erewrite app_bind_Return by exact Hdraw.
          erewrite app_bind_Return by (by apply on_chess_board_run).
          reflexivity. }
      eexists. split; [reflexivity|]. simpl.
      split; [done|]. split; [done|]. split; [done|]. rewrite Hb2. split.
      + simpl. by destruct (current_turn b').
      + unfold drawn_ok in *. simpl. by rewrite Hb2 in Hdrawn2.
    - destruct (move_piece_cases (chess_board app)
                  (Z.of_nat x) (Z.of_nat y)
                  (square_of event).1 (square_of event).2);
        try discriminate.
      injection Hmove as <-.
      erewrite app_bind_Return by reflexivity.
      eexists. split; [reflexivity|]. simpl.
      split; [done|]. split; [done|].
      split; [by rewrite with_chess_board_id|]. split; [done|].
      unfold drawn_ok in *. simpl. done. }
  exists x, y, ok, app'.
  split; [done|]. split; [by rewrite Hb'|]. split; [done|].
  split; [done|]. split; [done|].
  unfold app_ok. rewrite Hb'.
  split; [done|]. split; [done|]. split; [|done].
  intros sel'. rewrite Hnone. discriminate.
Qed.

Lemma draw_board_run app :
  exists app',
    _draw_board app = (Return tt, app') /\
    same_model app app' /\ drawn_pieces app' = drawn_pieces app.
Proof.
  unfold _draw_board.
  destruct (app_for_each_inv
    (fun _ app' => same_model app app' /\ drawn_pieces app' = drawn_pieces app)
    (range BOARD_SIZE)
    (fun row =>
       app_for_each (range BOARD_SIZE) (fun col =>
         app_bind
           (on_canvas
              (canvas_create_rectangle (col * SQUARE_SIZE) (row * SQUARE_SIZE)
                 (col * SQUARE_SIZE + SQUARE_SIZE)
                 (row * SQUARE_SIZE + SQUARE_SIZE)
                 (if bool_decide ((row + col) `mod` 2 = 0) then "white"
                  else "lightgray") "black"))
           (fun _ =>
         app_bind
           (if bool_decide (col = 0)
            then
              app_bind
                (on_canvas
                   (canvas_create_text (col * SQUARE_SIZE + 10)
                      (row * SQUARE_SIZE + 10) (str (BOARD_SIZE - row))
                      ("Arial", 8) None))
                (fun _ => app_ret tt)
            else app_ret tt)
           (fun _ =>
         if bool_decide (row = BOARD_SIZE - 1)
         then
           app_bind
             (on_canvas
                (canvas_create_text (col * SQUARE_SIZE + SQUARE_SIZE - 10)
                   (row * SQUARE_SIZE + SQUARE_SIZE - 10) (chr (97 + col))
                   ("Arial", 8) None))
             (fun _ => app_ret tt)
         else app_ret tt))))
    [] app) as (app' & Hrun & Hsame); [done| |by exists app'].
  intros _ r app1 _ Hsame1. cbv beta.
  match goal with
  | |- exists _, app_for_each _ ?body _ = _ /\ _ =>
      destruct (app_for_each_inv
        (fun _ app' =>
           same_model app app' /\ drawn_pieces app' = drawn_pieces app)
        (range BOARD_SIZE) body [] app1) as (app2 & Hrun2 & Hsame2);
        [done| |by exists app2]
  end.
  intros _ c app2 _ [(Hb & Hsel & Hlab) Hdrawn].
  unfold app_bind, on_canvas, app_ret.
  destruct (canvas_create_rectangle _ _ _ _ _ _ _) as [item1 c1]. simpl.
  destruct (bool_decide (c = 0)), (bool_decide (r = BOARD_SIZE - 1)); simpl;
    repeat
      match goal with
      | |- context [canvas_create_text ?x ?y ?t ?f ?o ?cv] =>
          destruct (canvas_create_text x y t f o cv) as [? ?]; simpl
      end;
    eexists; (split; [reflexivity|]); done.
Qed.

(** X10: a click outside the 640 by 640 pixels of the board, negative
    coordinates included, is ignored: nothing is selected, moved,
    redrawn or relabelled. *)
Theorem click_off_board_ignored app event :
  ~ (0 <= ev_x event < 640 /\ 0 <= ev_y event < 640) ->
  on_square_click event app = (Return tt, app).
Proof. apply click_off_board_run. Qed.

(** X11: on a board as the program builds it, [_draw_pieces] returns
    normally, leaves the board, the selection and the label as they
    were, and leaves in [drawn_pieces] an item for exactly the occupied
    squares, whatever was drawn before. *)
Theorem draw_pieces_shows_board app :
  wf (chess_board app) ->
  exists app',
    _draw_pieces app = (Return tt, app') /\
    chess_board app' = chess_board app /\
    selected_piece app' = selected_piece app /\
    status_label app' = status_label app /\
    drawn_ok app'.
Proof. apply draw_pieces_run. Qed.


(** X12: the click handler never raises and keeps the window
    consistent: from a state where the board is well-formed and
    satisfies the board invariant, the selected piece (if any) is an
    on-board piece of the side to move, the label names the side to
    move and the drawn items sit on exactly the occupied squares, any
    click leads to a state where all of this holds again. *)
Theorem click_keeps_window_consistent app event :
  app_ok app ->
  exists app', on_square_click event app = (Return tt, app') /\ app_ok app'.
Proof.
  intros Hok.
  destruct (decide (0 <= ev_x event < 640 /\ 0 <= ev_y event < 640))
    as [[Hr Hc]%pixel_square|Hout];
    [|exists app; split; [by apply click_off_board_run|done]].
  destruct (selected_piece app) as [sel|] eqn:Hsel.
  - destruct (click_selected_run app event sel Hok Hsel Hr Hc)
      as (x & y & ok & app' & _ & _ & Hrun & _ & _ & Hok').
    by exists app'.
  - pose proof Hok as (Hwf & Hinv & Hselok & Hlabel & Hdrawn).
    destruct (click_unselected_run app event Hwf Hsel Hr Hc)
      as (v & Hget & Hrun).
    destruct v as [p|]; [|by exists app].
    destruct Hrun as (pp & Hpp & Hon & Hrun).
    eexists. split; [exact Hrun|].
    case_bool_decide as Hturn; [|done].
    split; [done|]. split; [done|]. split; [|done].
    intros sel' [= <-]. split; [done|]. by exists pp.
Qed.

Lemma ChessApp_init_run (new_canvas : C) :
  exists app,
    ChessApp_init new_canvas = Return app /\
    chess_board app = fresh /\
    selected_piece app = None /\
    status_label app = "White's Turn" /\
    app_ok app.
Proof.
  unfold ChessApp_init. rewrite fresh_built. cbv zeta.
  set (self := mkApp new_canvas fresh [] None "").
  destruct (draw_board_run self) as (app1 & Hboard & (Hb1 & _ & _) & _).
  destruct (draw_pieces_run app1) as (app2 & Hpieces & Hb2 & _ & _ & Hdrawn).
  { rewrite Hb1. apply fresh_wf. }
  erewrite app_bind_Return by exact Hboard. rewrite Hpieces.
  eexists. split; [reflexivity|]. simpl. rewrite Hb2, Hb1. simpl.
  repeat (split; [done|]).
  unfold app_ok. simpl. rewrite Hb2, Hb1. simpl.
  split; [apply fresh_wf|]. split; [apply fresh_invariant|].
  split; [done|]. split; [done|].
  unfold drawn_ok in *. simpl. exact Hdrawn.
Qed.

(** X13: [ChessApp.__init__] returns normally on any canvas, with the
    fresh board, nothing selected, the label naming white, and the
    window consistent in the sense of X12. *)
Theorem ChessApp_init_consistent (new_canvas : C) :
  exists app,
    ChessApp_init new_canvas = Return app /\
    chess_board app = fresh /\
    selected_piece app = None /\
    status_label app = "White's Turn" /\
    app_ok app.
Proof. apply ChessApp_init_run. Qed.

Lemma select_keeps_ok app p pp :
  app_ok app ->
  on_board (chess_board app) p ->
  pieces (chess_board app) !! p = Some pp ->
  color pp = current_turn (chess_board app) ->
  app_ok (with_selected_piece (Some p) app).
Proof.
  intros (Hwf & Hinv & _ & Hlabel & Hdrawn) Hon Hpp Hturn.
  split; [done|]. split; [done|]. split; [|done].
  intros sel' [= <-]. split; [done|]. by exists pp.
Qed.

(** X14: two clicks make a move.  With the window consistent and
    nothing selected, a click on a square holding a piece of the side
    to move followed by a click on any square of the board leaves the
    board as [move_piece] from the first square to the second leaves
    it, with nothing selected and the window consistent. *)
Theorem two_clicks_move app e1 e2 pp :
  app_ok app ->
  selected_piece app = None ->
  0 <= (square_of e1).1 < 8 -> 0 <= (square_of e1).2 < 8 ->
  0 <= (square_of e2).1 < 8 -> 0 <= (square_of e2).2 < 8 ->
  piece_at (chess_board app) (square_of e1).1 (square_of e1).2 = Some pp ->
  color pp = current_turn (chess_board app) ->
  exists app1 app2,
    on_square_click e1 app = (Return tt, app1) /\
    on_square_click e2 app1 = (Return tt, app2) /\
    chess_board app2 =
      (move_piece (square_of e1).1 (square_of e1).2
                  (square_of e2).1 (square_of e2).2 (chess_board app)).2 /\
    selected_piece app2 = None /\
    app_ok app2.
Proof.
  intros Hok Hsel Hr1 Hc1 Hr2 Hc2 (p & Hget & Hpp)%piece_at_Some Hturn.
  pose proof Hok as (Hwf & Hinv & Hselok & Hlabel & Hdrawn).
  destruct (click_unselected_run app e1 Hwf Hsel Hr1 Hc1)
    as (v & Hget' & Hrun1).
  pose proof (eq_trans (eq_sym Hget) Hget') as [= <-].
  destruct Hrun1 as (pp' & Hpp' & Hon & Hrun1).
  pose proof (eq_trans (eq_sym Hpp) Hpp') as [= <-].
  rewrite bool_decide_eq_true_2 in Hrun1 by done.
  set (app1 := with_selected_piece (Some p) app) in *.
  assert (app_ok app1) as Hok1.
  { split; [done|]. split; [done|]. split; [|done].
    intros sel' [= <-]. split; [done|]. by exists pp. }
  destruct (click_selected_run app1 e2 p Hok1 eq_refl Hr2 Hc2)
    as (x & y & ok & app2 & Hcell & Hmove & Hrun2 & Hnone & _ & Hok2).
  destruct (wf_grid_getitem _ _ _ Hwf Hr1 Hc1) as (v & Hget1 & Hcell1).
  pose proof (eq_trans (eq_sym Hget) Hget1) as [= <-].
  pose proof (positions_agree_unique _ _ _ _ _ _ (proj1 Hinv) Hcell Hcell1)
    as Hxy.
  assert (x = Z.to_nat (square_of e1).1 /\ y = Z.to_nat (square_of e1).2)
    as [-> ->] by (by injection Hxy).
  rewrite !Z2Nat.id in Hmove by lia.
  change (chess_board app1) with (chess_board app) in Hmove.
  exists app1, app2. repeat (split; [done|]).
  split; [|done]. by rewrite Hmove.
Qed.

(** X15: only a piece of the side to move can be selected: with
    nothing selected, a click on an empty square or on a piece of the
    other side changes nothing at all. *)
Theorem click_selects_own_pieces_only app event :
  wf (chess_board app) ->
  selected_piece app = None ->
  0 <= (square_of event).1 < 8 -> 0 <= (square_of event).2 < 8 ->
  (forall pp,
     piece_at (chess_board app) (square_of event).1 (square_of event).2
       = Some pp ->
     color pp <> current_turn (chess_board app)) ->
  on_square_click event app = (Return tt, app).
Proof.
  intros Hwf Hsel Hr Hc Hother.
  destruct (click_unselected_run app event Hwf Hsel Hr Hc)
    as (v & Hget & Hrun).
  destruct v as [p|]; [|done].
  destruct Hrun as (pp & Hpp & _ & ->).
  rewrite bool_decide_eq_false_2; [done|].
  apply Hother, piece_at_Some. eauto.
Qed.

(** X16: a click on the board always ends a selection, and a click on
    a piece of the side to move (the selected piece itself included)
    does nothing else: the move is refused, the board, the label and
    the drawing stay, and the clicked piece is not selected in its
    turn. *)
Theorem click_on_own_piece_deselects app event sel pp :
  app_ok app ->
  selected_piece app = Some sel ->
  0 <= (square_of event).1 < 8 -> 0 <= (square_of event).2 < 8 ->
  piece_at (chess_board app) (square_of event).1 (square_of event).2
    = Some pp ->
  color pp = current_turn (chess_board app) ->
  on_square_click event app = (Return tt, with_selected_piece None app).
Proof.
  intros Hok Hsel Hr Hc Hpp Hturn.
  destruct (click_selected_run app event sel Hok Hsel Hr Hc)
    as (x & y & ok & app' & Hcell & Hmove & Hrun & _ & Hfalse & _).
  rewrite Hrun, Hfalse; [done|].
  destruct Hok as (Hwf & Hinv & Hselok & _).
  destruct (Hselok sel Hsel) as (_ & spp & Hspp & Hsturn).
  destruct (move_piece_cases (chess_board app) (Z.of_nat x) (Z.of_nat y)
              (square_of event).1 (square_of event).2)
    as [| |piece pp0 [i j] dst capture s1 Hsrc Hcell0 Hpp0 _ Hvalid _ _ _ _];
    try (by injection Hmove as <-); try discriminate.
  exfalso.
  destruct (wf_cell_in_grid _ _ _ _ Hwf Hcell) as [Hx Hy].
  rewrite wf_locate_in_bounds in Hsrc by (done || lia).
  injection Hsrc as <- <-. rewrite !Nat2Z.id in Hcell0.
  pose proof (eq_trans (eq_sym Hcell) Hcell0) as [= <-].
  pose proof (eq_trans (eq_sym Hspp) Hpp0) as [= <-].
  rewrite (wf_valid_move_result _ _ spp) in Hvalid by done.
  rewrite Hpp in Hvalid.
  rewrite (bool_decide_eq_true_2 (color pp = color spp)) in Hvalid
    by congruence.
  by rewrite andb_false_r in Hvalid.
Qed.

Lemma click_step app event :
  app_ok app -> reachable (chess_board app) ->
  exists app',
    on_square_click event app = (Return tt, app') /\
    app_ok app' /\ reachable (chess_board app').
Proof.
  intros Hok Hreach.
  destruct (decide (0 <= ev_x event < 640 /\ 0 <= ev_y event < 640))
    as [[Hr Hc]%pixel_square|Hout];
    [|exists app; split; [by apply click_off_board_run|done]].
  destruct (selected_piece app) as [sel|] eqn:Hsel.
  - destruct (click_selected_run app event sel Hok Hsel Hr Hc)
      as (x & y & ok & app' & _ & Hmove & Hrun & _ & _ & Hok').
    exists app'. split; [done|]. split; [done|].
    pose proof (reachable_move (chess_board app) (Z.of_nat x) (Z.of_nat y)
                  (square_of event).1 (square_of event).2 Hreach) as Hnext.
    by rewrite Hmove in Hnext.
  - pose proof Hok as (Hwf & _).
    destruct (click_unselected_run app event Hwf Hsel Hr Hc)
      as (v & Hget & Hrun).
    destruct v as [p|]; [|by exists app].
    destruct Hrun as (pp & Hpp & Hon & Hrun).
    eexists. split; [exact Hrun|].
    case_bool_decide as Hturn; [|done].
    split; [by apply (select_keeps_ok app p pp)|done].
Qed.

(** X17: a session never raises.  Started by [ChessApp.__init__] on
    any canvas, and whatever clicks follow, anywhere and in any
    number, every call of the click handler returns normally; at the
    end the window is consistent in the sense of X12 and the board is
    one that [move_piece] calls lead to from the fresh board. *)
Theorem session_never_raises (new_canvas : C) (events : list Event) :
  exists app0 app,
    ChessApp_init new_canvas = Return app0 /\
    handle_clicks events app0 = (Return tt, app) /\
    app_ok app /\
    reachable (chess_board app).
Proof.
  destruct (ChessApp_init_run new_canvas)
    as (app0 & Hinit & Hfresh & _ & _ & Hok0).
  destruct (app_for_each_inv
    (fun _ app => app_ok app /\ reachable (chess_board app))
    events on_square_click [] app0) as (app & Hrun & Hok & Hreach).
  - split; [done|]. rewrite Hfresh. apply reachable_fresh.
  - intros _ event app1 _ [Hok1 Hreach1].
    destruct (click_step app1 event Hok1 Hreach1)
      as (app2 & Hrun2 & Hok2 & Hreach2).
    exists app2. split; [exact Hrun2|]. split; [exact Hok2|exact Hreach2].
  - exists app0, app. split; [exact Hinit|]. split; [exact Hrun|].
    split; [exact Hok|exact Hreach].
Qed.

End AppProperties.

(** ** The window on the example canvas *)

Lemma example_app_built : ChessApp_init [] = Return example_app.
Proof. vm_compute. reflexivity. Qed.

Lemma example_app_ok : app_ok example_app.
Proof.
  destruct (ChessApp_init_run (C:=list (option Shape)) (Item:=nat) [])
    as (app & Hinit & _ & _ & _ & Hok).
  rewrite example_app_built in Hinit. by injection Hinit as <-.
Qed.

Lemma example_selected_ok :
  app_ok (with_selected_piece (Some 12%nat) example_app).
Proof.
  apply (select_keeps_ok example_app 12%nat
           (mkPiece PAWN WHITE 6 4 false "♙")).
  - apply example_app_ok.
  - exists 6%nat, 4%nat. reflexivity.
  - reflexivity.
  - reflexivity.
Qed.

Lemma click_off_board_ignored_witness :
  on_square_click (mkEvent (-5) 700) example_app = (Return tt, example_app).
Proof.
  apply click_off_board_ignored. simpl. lia.
Defined.

Lemma draw_pieces_shows_board_witness :
  exists app',
    _draw_pieces example_app = (Return tt, app') /\
    chess_board app' = chess_board example_app /\
    selected_piece app' = selected_piece example_app /\
    status_label app' = status_label example_app /\
    drawn_ok app'.
Proof.
  apply draw_pieces_shows_board.
  apply wf_check_sound. vm_compute. reflexivity.
Defined.

Lemma click_keeps_window_consistent_witness :
  exists app',
    on_square_click (mkEvent 330 500) example_app = (Return tt, app') /\
    app_ok app'.
Proof.
  apply click_keeps_window_consistent. apply example_app_ok.
Defined.

Lemma two_clicks_move_witness :
  exists app1 app2,
    on_square_click (mkEvent 330 500) example_app = (Return tt, app1) /\
    on_square_click (mkEvent 330 330) app1 = (Return tt, app2) /\
    chess_board app2 = (move_piece 6 4 4 4 (chess_board example_app)).2 /\
    selected_piece app2 = None /\
    app_ok app2.
Proof.
  apply (two_clicks_move example_app (mkEvent 330 500) (mkEvent 330 330)
           (mkPiece PAWN WHITE 6 4 false "♙")).
  - apply example_app_ok.
  - reflexivity.
  - vm_compute. split; [discriminate|reflexivity].
  - vm_compute. split; [discriminate|reflexivity].
  - vm_compute. split; [discriminate|reflexivity].
  - vm_compute. split; [discriminate|reflexivity].
  - reflexivity.
  - reflexivity.
Defined.

Lemma click_selects_own_pieces_only_witness :
  on_square_click (mkEvent 330 100) example_app = (Return tt, example_app).
Proof.
  apply click_selects_own_pieces_only.
  - apply wf_check_sound. vm_compute. reflexivity.
  - reflexivity.
  - vm_compute. split; [discriminate|reflexivity].
  - vm_compute. split; [discriminate|reflexivity].
  - intros pp [= <-]. discriminate.
Defined.

Lemma click_on_own_piece_deselects_witness :
  on_square_click (mkEvent 10 630)
    (with_selected_piece (Some 12%nat) example_app)
  = (Return tt,
     with_selected_piece None
       (with_selected_piece (Some 12%nat) example_app)).
Proof.
  apply (click_on_own_piece_deselects _ _ 12%nat
           (mkPiece ROOK WHITE 7 0 false "♖")).
  - apply example_selected_ok.
  - reflexivity.
  - vm_compute. split; [discriminate|reflexivity].
  - vm_compute. split; [discriminate|reflexivity].
  - reflexivity.
  - reflexivity.
Defined.
